(** * Prehistoric Leap: a shallow embedding of [main.py]

    The game logic of [main.py] (player physics, obstacle generation,
    spawning, collision detection, level selection, the START / PLAYING /
    GAME_OVER controller and the persisted high score) is translated into
    Rocq functions, and the properties of the specification are proved
    about them.

    Modelling conventions.
    - Python [int] is [Z]; [//] on integers is [Z.div] (both round down).
    - Python [float] is modelled by exact rationals [Q].  Binary64 rounds
      where the model is exact, so the properties of the moving objects are
      stated on flags, counters, clamps, control flow and on what a call
      returns, which no rounding changes, and not on positions predicted by
      exact arithmetic.  Infinities and NaN are outside the model.
      [int(f)] is truncation towards zero.
    - [math.sin] is a parameter of the development.
    - The shared pseudo-random generator is an explicit stream of raw
      integers with a cursor; [random.randint], [random.random] and
      [random.uniform] are derived from it.
    - Exceptions that the code can raise ([IndexError], [ValueError], and
      those of reading the high-score file) are results of the error type
      [Result]; [sys.exit] is an outcome of event handling.
    - Python objects held in the live collections carry an object identity
      ([oid]); [list.remove(obj)] removes the object with that identity, and
      a method call on an object of a snapshot ([self.walls[:]]) mutates the
      same object in the live list.
    - Surfaces, fonts, sounds and drawing are presentation and are left out;
      so are the cosmetic random draws of [create_rock_surface]. *)

From Stdlib Require Import ZArith QArith Qround Bool List Lia Lqa.
Import ListNotations.

Local Open Scope Z_scope.

(* ================================================================== *)
(** * Constants *)
(* ================================================================== *)

Definition SCREEN_WIDTH : Z := 800.
Definition SCREEN_HEIGHT : Z := 600.
Definition PLAYER_W : Z := 70.
Definition PLAYER_H : Z := 70.
Definition PLAYER_X : Z := 150.
Definition ENEMY_W : Z := 70.
Definition ENEMY_H : Z := 70.
Definition COIN_W : Z := 32.
Definition COIN_H : Z := 32.
Definition WALL_WIDTH : Z := 72.
Definition WALL_TIP : Z := 22.

(** [math.pi], the binary64 value, as an exact rational. *)
Definition math_pi : Q := 884279719003555 # 281474976710656.

(* ================================================================== *)
(** * Numbers *)
(* ================================================================== *)

(** [float(n)] *)
Definition float (n : Z) : Q := inject_Z n.

(** [a < b] on floats. *)
Definition Qltb (a b : Q) : bool := negb (Qle_bool b a).

(** [int(f)]: truncation towards zero. *)
Definition int (f : Q) : Z :=
  if Qle_bool 0 f then Qfloor f else Qceiling f.

(** Python's [min(a, b)]: [b] when [b < a], else [a]. *)
Definition pymin (a b : Q) : Q := if Qltb b a then b else a.

(** Python's [max(a, b)]: [b] when [b > a], else [a]. *)
Definition pymax (a b : Q) : Q := if Qltb a b then b else a.

(** [dict.get(key, default)] on an optional key. *)
Definition get {A : Type} (field : option A) (default : A) : A :=
  match field with
  | Some v => v
  | None => default
  end.

(* ================================================================== *)
(** * Exceptions *)
(* ================================================================== *)

Inductive Exc : Type :=
| IndexError
| ValueError
| FileNotFoundError
| PermissionError
| UnicodeDecodeError
| JSONDecodeError
| AttributeError.

Inductive Result (A : Type) : Type :=
| Ok (a : A)
| Raise (e : Exc).

Arguments Ok {A} a.
Arguments Raise {A} e.

Definition bind {A B : Type} (r : Result A) (k : A -> Result B) : Result B :=
  match r with
  | Ok a => k a
  | Raise e => Raise e
  end.

Notation "' pat <- r ;; k" := (bind r (fun pat => k))
  (at level 61, pat pattern, r at next level, right associativity).

(* ================================================================== *)
(** * pygame.Rect *)
(* ================================================================== *)

Record Rect : Type := mkRect {
  rx : Z;
  ry : Z;
  rw : Z;
  rh : Z
}.

(** [Rect.colliderect], as pygame 2 implements it: rectangles of zero
    width or height collide with nothing; otherwise the normalised extents
    must overlap strictly on both axes. *)
Definition colliderect (A B : Rect) : bool :=
  if (rw A =? 0) || (rh A =? 0) || (rw B =? 0) || (rh B =? 0) then false
  else
    (Z.min (rx A) (rx A + rw A) <? Z.max (rx B) (rx B + rw B)) &&
    (Z.min (ry A) (ry A + rh A) <? Z.max (ry B) (ry B + rh B)) &&
    (Z.max (rx A) (rx A + rw A) >? Z.min (rx B) (rx B + rw B)) &&
    (Z.max (ry A) (ry A + rh A) >? Z.min (ry B) (ry B + rh B)).

(** [Rect.collidepoint]. *)
Definition collidepoint (r : Rect) (pos : Z * Z) : bool :=
  let (x, y) := pos in
  (rx r <=? x) && (x <? rx r + rw r) && (ry r <=? y) && (y <? ry r + rh r).

(* ================================================================== *)
(** * The environment: random source, high-score file, allocation *)
(* ================================================================== *)

(** Content of [highscore.json]: absent, not decodable as JSON, or a JSON
    object whose [high_score] key may be missing.  These are the files on
    which [load_highscore] returns (see [HSRead] and [file_read] below); a
    session exists only after [Game.__init__] has read the file, and from
    then on only the program writes it. *)
Inductive HSFile : Type :=
| Missing
| Corrupt
| Stored (high_score : option Z).

Record Env : Type := mkEnv {
  rng_seq : nat -> Z;     (* the raw stream of the shared generator *)
  rng_pos : nat;          (* how much of it has been consumed *)
  hs_file : HSFile;       (* highscore.json *)
  next_oid : nat          (* identity of the next allocated object *)
}.

Definition with_hs_file (f : HSFile) (e : Env) : Env :=
  {| rng_seq := rng_seq e; rng_pos := rng_pos e;
     hs_file := f; next_oid := next_oid e |}.

(** One raw draw. *)
Definition draw (e : Env) : Z * Env :=
  (rng_seq e (rng_pos e),
   {| rng_seq := rng_seq e; rng_pos := S (rng_pos e);
      hs_file := hs_file e; next_oid := next_oid e |}).

(** Allocation of a fresh object identity. *)
Definition alloc (e : Env) : nat * Env :=
  (next_oid e,
   {| rng_seq := rng_seq e; rng_pos := rng_pos e;
      hs_file := hs_file e; next_oid := S (next_oid e) |}).

(** [random.randint(a, b)]: an integer of [a..b]; [ValueError] on an empty
    range. *)
Definition randint (a b : Z) (e : Env) : Result (Z * Env) :=
  if a <=? b then
    let (r, e') := draw e in Ok (a + r mod (b - a + 1), e')
  else Raise ValueError.

(** [random.random()]: 53 random bits scaled into [0, 1). *)
Definition random (e : Env) : Q * Env :=
  let (r, e') := draw e in
  (Qmake (r mod 2 ^ 53) (2 ^ 53), e').

(** [random.uniform(a, b)] is [a + (b - a) * random()]. *)
Definition uniform (a b : Q) (e : Env) : Q * Env :=
  let (u, e') := random e in
  ((a + (b - a) * u)%Q, e').

(* ------------------------------------------------------------------ *)
(** ** High score persistence *)

(** [load_highscore] on the files of [HSFile]: [FileNotFoundError] and
    [JSONDecodeError] give 0.  [load_highscore_from] below is the same
    function on any file, with the errors it does not catch. *)
Definition load_highscore (e : Env) : Z :=
  match hs_file e with
  | Missing => 0
  | Corrupt => 0
  | Stored hs => get hs 0
  end.

(** [save_highscore]: writes only a score that beats the record. *)
Definition save_highscore (score : Z) (e : Env) : bool * Env :=
  let current := load_highscore e in
  if score >? current then (true, with_hs_file (Stored (Some score)) e)
  else (false, e).





(* ================================================================== *)
(** * Game objects *)
(* ================================================================== *)

Section GameObjects.

(** [math.sin] *)
Variable sin : Q -> Q.

(* ------------------------------------------------------------------ *)
(** ** Player *)

Record Player : Type := mkPlayer {
  p_x : Z;
  p_y : Q;
  p_vel : Q;
  p_alive : bool;
  p_bob_t : Q;
  p_gravity : Q;
  p_flap_power : Q;
  p_max_fall : Q
}.

(** [Player.__init__] *)
Definition Player_init : Player :=
  {| p_x := PLAYER_X;
     p_y := float (SCREEN_HEIGHT / 2 - PLAYER_H / 2);
     p_vel := 0;
     p_alive := true;
     p_bob_t := 0;
     p_gravity := 3 # 10;
     p_flap_power := - (6);
     p_max_fall := 7 |}.

(** [Player.rect]: the hit-box, inset by 8 pixels on every side. *)
Definition Player_rect (p : Player) : Rect :=
  mkRect (p_x p + 8) (int (p_y p) + 8) (PLAYER_W - 16) (PLAYER_H - 16).

(** [Player.flap] *)
Definition Player_flap (p : Player) : Player :=
  if p_alive p then
    {| p_x := p_x p; p_y := p_y p; p_vel := p_flap_power p;
       p_alive := p_alive p; p_bob_t := p_bob_t p;
       p_gravity := p_gravity p; p_flap_power := p_flap_power p;
       p_max_fall := p_max_fall p |}
  else p.

(** [Player.update(gravity, grace)] *)
Definition Player_update (gravity : option Q) (grace : bool) (p : Player)
  : Player :=
  let gravity' := match gravity with Some g => g | None => p_gravity p end in
  let vel1 :=
    if negb grace then pymin (p_vel p + gravity')%Q (p_max_fall p)
    else 0%Q in
  let y1 := (p_y p + vel1)%Q in
  (* ceiling clamp *)
  let '(y2, vel2) := if Qltb y1 0 then (0%Q, 0%Q) else (y1, vel1) in
  (* floor: death *)
  let '(y3, alive3) :=
    if Qltb (float (SCREEN_HEIGHT - PLAYER_H)) y2
    then (float (SCREEN_HEIGHT - PLAYER_H), false)
    else (y2, p_alive p) in
  {| p_x := p_x p; p_y := y3; p_vel := vel2; p_alive := alive3;
     p_bob_t := p_bob_t p; p_gravity := gravity';
     p_flap_power := p_flap_power p; p_max_fall := p_max_fall p |}.

(** [Player.bob] *)
Definition Player_bob (p : Player) : Player :=
  let t := (p_bob_t p + (4 # 100))%Q in
  {| p_x := p_x p;
     p_y := (float (SCREEN_HEIGHT / 2 - PLAYER_H / 2) + sin t * 18)%Q;
     p_vel := p_vel p; p_alive := p_alive p; p_bob_t := t;
     p_gravity := p_gravity p; p_flap_power := p_flap_power p;
     p_max_fall := p_max_fall p |}.

(** [Player.reset] *)
Definition Player_reset (p : Player) : Player :=
  {| p_x := p_x p;
     p_y := float (SCREEN_HEIGHT / 2 - PLAYER_H / 2);
     p_vel := 0; p_alive := true; p_bob_t := 0;
     p_gravity := p_gravity p; p_flap_power := p_flap_power p;
     p_max_fall := p_max_fall p |}.

Definition Player_set_alive (b : bool) (p : Player) : Player :=
  {| p_x := p_x p; p_y := p_y p; p_vel := p_vel p; p_alive := b;
     p_bob_t := p_bob_t p; p_gravity := p_gravity p;
     p_flap_power := p_flap_power p; p_max_fall := p_max_fall p |}.

(* ------------------------------------------------------------------ *)
(** ** WallPair *)

Record WallPair : Type := mkWallPair {
  w_oid : nat;
  w_x : Q;
  w_speed : Q;
  w_gap_size : Z;
  w_scored : bool;
  w_gap_y : Z;
  w_top_h : Z;       (* _top_h *)
  w_bot_start : Z    (* _bot_start *)
}.

(** What [create_rock_surface(WALL_WIDTH, height, _)] can do to the control
    flow: its crack loop runs at least once and draws
    [random.randint(body_y0 + 12, body_y1 - 12)], an empty range when
    [height < 24]. *)
Definition create_rock_surface (height : Z) : Result unit :=
  if height <? 24 then Raise ValueError else Ok tt.

(** [WallPair.__init__(x, gap_size, speed, gap_y=None)] *)
Definition WallPair_init (x : Z) (gap_size : Z) (speed : Q)
    (gap_y : option Z) (e : Env) : Result (WallPair * Env) :=
  let (oid, e0) := alloc e in
  let margin := 70 in
  let min_gy := margin + gap_size / 2 in
  let max_gy := SCREEN_HEIGHT - margin - gap_size / 2 in
  ' (gy, e1) <-
      match gap_y with
      | Some v => if v =? 0 then randint min_gy max_gy e0 else Ok (v, e0)
      | None => randint min_gy max_gy e0
      end ;;
  let top_h := gy - gap_size / 2 in
  let bot_h := SCREEN_HEIGHT - (gy + gap_size / 2) in
  ' _ <- create_rock_surface (Z.max 10 top_h) ;;
  ' _ <- create_rock_surface (Z.max 10 bot_h) ;;
  Ok ({| w_oid := oid; w_x := float x; w_speed := speed;
         w_gap_size := gap_size; w_scored := false; w_gap_y := gy;
         w_top_h := Z.max 10 top_h;
         w_bot_start := gy + gap_size / 2 |}, e1).

Definition WallPair_top_rect (w : WallPair) : Rect :=
  mkRect (int (w_x w)) 0 WALL_WIDTH (w_top_h w).

Definition WallPair_bot_rect (w : WallPair) : Rect :=
  mkRect (int (w_x w)) (w_bot_start w) WALL_WIDTH
         (SCREEN_HEIGHT - w_bot_start w).

Definition WallPair_update (w : WallPair) : WallPair :=
  {| w_oid := w_oid w; w_x := (w_x w - w_speed w)%Q; w_speed := w_speed w;
     w_gap_size := w_gap_size w; w_scored := w_scored w;
     w_gap_y := w_gap_y w; w_top_h := w_top_h w;
     w_bot_start := w_bot_start w |}.

Definition WallPair_set_scored (b : bool) (w : WallPair) : WallPair :=
  {| w_oid := w_oid w; w_x := w_x w; w_speed := w_speed w;
     w_gap_size := w_gap_size w; w_scored := b;
     w_gap_y := w_gap_y w; w_top_h := w_top_h w;
     w_bot_start := w_bot_start w |}.

Definition WallPair_off_screen (w : WallPair) : bool :=
  Qltb (w_x w + float WALL_WIDTH) (float (-10)).

Definition WallPair_collides (w : WallPair) (player_rect : Rect) : bool :=
  colliderect (WallPair_top_rect w) player_rect
  || colliderect (WallPair_bot_rect w) player_rect.

(* ------------------------------------------------------------------ *)
(** ** Enemy *)

Record Enemy : Type := mkEnemy {
  e_oid : nat;
  e_x : Q;
  e_base_y : Q;
  e_y : Q;
  e_speed : Q;
  e_wave_t : Q;
  e_wave_amp : Z;
  e_wave_spd : Q
}.

(** [Enemy.__init__(speed)] from its first draw on.  The image is loaded
    before that ([load_scaled_image], presentation): when the file cannot
    be loaded the constructor raises there, before any draw; what follows
    is the constructor once the image is there.  The ranges of its draws
    are never empty. *)
Definition Enemy_init (speed : Q) (e : Env) : Result (Enemy * Env) :=
  let (oid, e0) := alloc e in
  ' (dx, e1) <- randint 20 120 e0 ;;
  ' (by_, e2) <- randint 40 (SCREEN_HEIGHT - ENEMY_H - 40) e1 ;;
  let (wt, e3) := uniform 0 (2 * math_pi) e2 in
  ' (amp, e4) <- randint 25 55 e3 ;;
  let (ws, e5) := uniform (25 # 1000) (55 # 1000) e4 in
  Ok ({| e_oid := oid; e_x := float (SCREEN_WIDTH + dx);
         e_base_y := float by_; e_y := float by_; e_speed := speed;
         e_wave_t := wt; e_wave_amp := amp; e_wave_spd := ws |}, e5).

Definition Enemy_rect (en : Enemy) : Rect :=
  mkRect (int (e_x en) + 10) (int (e_y en) + 10) (ENEMY_W - 20) (ENEMY_H - 20).

Definition Enemy_update (en : Enemy) : Enemy :=
  let t := (e_wave_t en + e_wave_spd en)%Q in
  {| e_oid := e_oid en; e_x := (e_x en - e_speed en)%Q;
     e_base_y := e_base_y en;
     e_y := (e_base_y en + sin t * float (e_wave_amp en))%Q;
     e_speed := e_speed en; e_wave_t := t; e_wave_amp := e_wave_amp en;
     e_wave_spd := e_wave_spd en |}.

Definition Enemy_off_screen (en : Enemy) : bool :=
  Qltb (e_x en + float ENEMY_W) (float (-10)).

Definition Enemy_collides (en : Enemy) (player_rect : Rect) : bool :=
  colliderect (Enemy_rect en) player_rect.

(* ------------------------------------------------------------------ *)
(** ** Coin *)

Record Coin : Type := mkCoin {
  c_oid : nat;
  c_x : Q;
  c_base_y : Q;
  c_y : Q;
  c_speed : Q;
  c_bob_t : Q
}.

(** [Coin.__init__(x, y, speed)] after its image is loaded (the same
    [load_scaled_image], which raises when the file cannot be loaded). *)
Definition Coin_init (x : Q) (y : Z) (speed : Q) (e : Env) : Coin * Env :=
  let (oid, e0) := alloc e in
  let (bt, e1) := uniform 0 (2 * math_pi) e0 in
  ({| c_oid := oid; c_x := x; c_base_y := float y; c_y := float y;
      c_speed := speed; c_bob_t := bt |}, e1).

Definition Coin_rect (c : Coin) : Rect :=
  mkRect (int (c_x c) + 4) (int (c_y c) + 4) (COIN_W - 8) (COIN_H - 8).

Definition Coin_update (c : Coin) : Coin :=
  let t := (c_bob_t c + (8 # 100))%Q in
  {| c_oid := c_oid c; c_x := (c_x c - c_speed c)%Q;
     c_base_y := c_base_y c; c_y := (c_base_y c + sin t * 6)%Q;
     c_speed := c_speed c; c_bob_t := t |}.

Definition Coin_off_screen (c : Coin) : bool :=
  Qltb (c_x c + float COIN_W) (float (-10)).

Definition Coin_collides (c : Coin) (player_rect : Rect) : bool :=
  colliderect (Coin_rect c) player_rect.

(* ------------------------------------------------------------------ *)
(** ** Button *)

Record Button : Type := mkButton {
  b_rect : Rect;
  b_hover : bool
}.

(** [Button.__init__(cx, cy, w, h, ...)] *)
Definition Button_init (cx cy w h : Z) : Button :=
  {| b_rect := mkRect (cx - w / 2) (cy - h / 2) w h; b_hover := false |}.

Definition Button_update (mouse_pos : Z * Z) (b : Button) : Button :=
  {| b_rect := b_rect b; b_hover := collidepoint (b_rect b) mouse_pos |}.

Definition Button_clicked (b : Button) (mouse_pos : Z * Z) : bool :=
  collidepoint (b_rect b) mouse_pos.

End GameObjects.

(* ================================================================== *)
(** * Lists of objects *)
(* ================================================================== *)

Section ObjectLists.

Context {A : Type}.
Variable oid : A -> nat.

(** The effect, on a list that holds the object [a], of a method call that
    leaves the object in state [a]: the entry with that identity is
    replaced. *)
Fixpoint store (a : A) (l : list A) : list A :=
  match l with
  | [] => []
  | b :: r => if Nat.eqb (oid b) (oid a) then a :: r else b :: store a r
  end.

(** [list.remove(a)]: removes the first entry that is the object [a];
    [ValueError] when there is none. *)
Fixpoint list_remove (a : A) (l : list A) : Result (list A) :=
  match l with
  | [] => Raise ValueError
  | b :: r =>
      if Nat.eqb (oid b) (oid a) then Ok r
      else ' r' <- list_remove a r ;; Ok (b :: r')
  end.

(** [l[-1]] *)
Definition list_last (l : list A) : Result A :=
  match rev l with
  | [] => Raise IndexError
  | a :: _ => Ok a
  end.

End ObjectLists.

(* ================================================================== *)
(** * Level table *)
(* ================================================================== *)

(** One entry of [levels.json]; every key is read with [dict.get] and a
    default, so every key is optional. *)
Record Level : Type := mkLevel {
  score_threshold : option Z;
  gravity : option Q;
  wall_speed : option Q;
  gap_size : option Z;
  wall_spacing : option Z;
  enemy_speed : option Q;
  enemy_spawn_frames : option Z;
  coin_spawn_chance : option Q;
  max_coins_on_screen : option Z;
  coin_speed_multiplier : option Q;
  coin_min_gap_from_walls_px : option Z;
  coin_y_padding_px : option Z;
  coin_value : option Z
}.

(* ================================================================== *)
(** * Game controller *)
(* ================================================================== *)

Inductive State : Type :=
| START
| PLAYING
| GAME_OVER.

Definition State_eqb (a b : State) : bool :=
  match a, b with
  | START, START | PLAYING, PLAYING | GAME_OVER, GAME_OVER => true
  | _, _ => false
  end.

Record Game : Type := mkGame {
  bg_x : Q;
  levels : list Level;
  high_score : Z;
  btn_start : Button;
  btn_restart : Button;
  state : State;
  player : Player;
  walls : list WallPair;
  enemies : list Enemy;
  coins : list Coin;
  score : Z;
  coins_collected : Z;
  grace_frames : Z;
  enemy_timer : Z;
  level_idx : Z
}.

Definition with_bg_x (v : Q) (g : Game) : Game :=
  mkGame v (levels g) (high_score g) (btn_start g) (btn_restart g) (state g)
    (player g) (walls g) (enemies g) (coins g) (score g) (coins_collected g)
    (grace_frames g) (enemy_timer g) (level_idx g).

Definition with_high_score (v : Z) (g : Game) : Game :=
  mkGame (bg_x g) (levels g) v (btn_start g) (btn_restart g) (state g)
    (player g) (walls g) (enemies g) (coins g) (score g) (coins_collected g)
    (grace_frames g) (enemy_timer g) (level_idx g).

Definition with_btn_start (v : Button) (g : Game) : Game :=
  mkGame (bg_x g) (levels g) (high_score g) v (btn_restart g) (state g)
    (player g) (walls g) (enemies g) (coins g) (score g) (coins_collected g)
    (grace_frames g) (enemy_timer g) (level_idx g).

Definition with_btn_restart (v : Button) (g : Game) : Game :=
  mkGame (bg_x g) (levels g) (high_score g) (btn_start g) v (state g)
    (player g) (walls g) (enemies g) (coins g) (score g) (coins_collected g)
    (grace_frames g) (enemy_timer g) (level_idx g).

Definition with_state (v : State) (g : Game) : Game :=
  mkGame (bg_x g) (levels g) (high_score g) (btn_start g) (btn_restart g) v
    (player g) (walls g) (enemies g) (coins g) (score g) (coins_collected g)
    (grace_frames g) (enemy_timer g) (level_idx g).

Definition with_player (v : Player) (g : Game) : Game :=
  mkGame (bg_x g) (levels g) (high_score g) (btn_start g) (btn_restart g)
    (state g) v (walls g) (enemies g) (coins g) (score g) (coins_collected g)
    (grace_frames g) (enemy_timer g) (level_idx g).

Definition with_walls (v : list WallPair) (g : Game) : Game :=
  mkGame (bg_x g) (levels g) (high_score g) (btn_start g) (btn_restart g)
    (state g) (player g) v (enemies g) (coins g) (score g) (coins_collected g)
    (grace_frames g) (enemy_timer g) (level_idx g).

Definition with_enemies (v : list Enemy) (g : Game) : Game :=
  mkGame (bg_x g) (levels g) (high_score g) (btn_start g) (btn_restart g)
    (state g) (player g) (walls g) v (coins g) (score g) (coins_collected g)
    (grace_frames g) (enemy_timer g) (level_idx g).

Definition with_coins (v : list Coin) (g : Game) : Game :=
  mkGame (bg_x g) (levels g) (high_score g) (btn_start g) (btn_restart g)
    (state g) (player g) (walls g) (enemies g) v (score g) (coins_collected g)
    (grace_frames g) (enemy_timer g) (level_idx g).

Definition with_score (v : Z) (g : Game) : Game :=
  mkGame (bg_x g) (levels g) (high_score g) (btn_start g) (btn_restart g)
    (state g) (player g) (walls g) (enemies g) (coins g) v (coins_collected g)
    (grace_frames g) (enemy_timer g) (level_idx g).

Definition with_coins_collected (v : Z) (g : Game) : Game :=
  mkGame (bg_x g) (levels g) (high_score g) (btn_start g) (btn_restart g)
    (state g) (player g) (walls g) (enemies g) (coins g) (score g) v
    (grace_frames g) (enemy_timer g) (level_idx g).

Definition with_grace_frames (v : Z) (g : Game) : Game :=
  mkGame (bg_x g) (levels g) (high_score g) (btn_start g) (btn_restart g)
    (state g) (player g) (walls g) (enemies g) (coins g) (score g)
    (coins_collected g) v (enemy_timer g) (level_idx g).

Definition with_enemy_timer (v : Z) (g : Game) : Game :=
  mkGame (bg_x g) (levels g) (high_score g) (btn_start g) (btn_restart g)
    (state g) (player g) (walls g) (enemies g) (coins g) (score g)
    (coins_collected g) (grace_frames g) v (level_idx g).

Definition with_level_idx (v : Z) (g : Game) : Game :=
  mkGame (bg_x g) (levels g) (high_score g) (btn_start g) (btn_restart g)
    (state g) (player g) (walls g) (enemies g) (coins g) (score g)
    (coins_collected g) (grace_frames g) (enemy_timer g) v.

(** [Game.__init__], for the level table read from [levels.json]. *)
Definition Game_init (lvs : list Level) (e : Env) : Game :=
  {| bg_x := 0;
     levels := lvs;
     high_score := load_highscore e;
     btn_start := Button_init (SCREEN_WIDTH / 2) 410 210 55;
     btn_restart :=
       Button_init (SCREEN_WIDTH / 2) (SCREEN_HEIGHT / 2 + 80) 220 55;
     state := START;
     player := Player_init;
     walls := [];
     enemies := [];
     coins := [];
     score := 0;
     coins_collected := 0;
     grace_frames := 0;
     enemy_timer := 0;
     level_idx := 0 |}.

(* ------------------------------------------------------------------ *)
(** ** Level look-up *)

(** The [for i, lv in enumerate(self.levels)] scan of [_level], from
    index [i]. *)
Fixpoint level_scan (sc : Z) (i : Z) (lvs : list Level) : option (Z * Level) :=
  match lvs with
  | [] => None
  | lv :: rest =>
      if sc <? get (score_threshold lv) 999999 then Some (i, lv)
      else level_scan sc (i + 1) rest
  end.

(** [Game._level] *)
Definition Game__level (g : Game) : Result (Level * Game) :=
  match level_scan (score g) 0 (levels g) with
  | Some (i, lv) => Ok (lv, with_level_idx i g)
  | None =>
      let g' := with_level_idx (Z.of_nat (length (levels g)) - 1) g in
      ' lv <- list_last (levels g) ;;
      Ok (lv, g')
  end.

(* ------------------------------------------------------------------ *)
(** ** State transitions *)

(** [Game._start_game] *)
Definition Game__start_game (g : Game) : Game :=
  let g := with_state PLAYING g in
  let g := with_player (Player_reset (player g)) g in
  let g := with_walls [] g in
  let g := with_enemies [] g in
  let g := with_coins [] g in
  let g := with_score 0 g in
  let g := with_coins_collected 0 g in
  let g := with_grace_frames 50 g in
  let g := with_enemy_timer 0 g in
  with_level_idx 0 g.

(** [Game._game_over] *)
Definition Game__game_over (s : Game * Env) : Game * Env :=
  let (g, e) := s in
  let g := with_state GAME_OVER g in
  let g := with_player (Player_set_alive false (player g)) g in
  let (beaten, e) := save_highscore (score g) e in
  if beaten then (with_high_score (score g) g, e) else (g, e).

(** [Game._quit]: persists the best score; the process then exits. *)
Definition Game__quit (s : Game * Env) : Env :=
  let (g, e) := s in
  snd (save_highscore (Z.max (score g) (high_score g)) e).

(* ------------------------------------------------------------------ *)
(** ** Event handling *)

Inductive Event : Type :=
| QUIT
| MOUSEBUTTONDOWN (button : Z) (pos : Z * Z)
| KEYDOWN (key : Z)
| OtherEvent.

Definition K_SPACE : Z := 32.

(** What handling events leads to: the game goes on, or [sys.exit] ended
    the process. *)
Inductive Outcome : Type :=
| Running (s : Game * Env)
| Exited (e : Env).

(** The body of the [for ev in pygame.event.get()] loop. *)
Definition handle_event (ev : Event) (s : Game * Env) : Outcome :=
  let (g, e) := s in
  match ev with
  | QUIT => Exited (Game__quit s)
  | _ =>
    match state g with
    | START =>
        match ev with
        | MOUSEBUTTONDOWN 1 pos =>
            if Button_clicked (btn_start g) pos
            then Running (Game__start_game g, e)
            else Running s
        | _ => Running s
        end
    | PLAYING =>
        let do_flap :=
          match ev with
          | KEYDOWN key => key =? K_SPACE
          | MOUSEBUTTONDOWN button _ => button =? 1
          | _ => false
          end in
        if do_flap then
          let g := with_player (Player_flap (player g)) g in
          (* first flap cancels the grace hover *)
          let g := if grace_frames g >? 0 then with_grace_frames 0 g else g in
          Running (g, e)
        else Running s
    | GAME_OVER =>
        let g :=
          match ev with
          | MOUSEBUTTONDOWN 1 pos =>
              if Button_clicked (btn_restart g) pos
              then Game__start_game g else g
          | _ => g
          end in
        let g :=
          match ev with
          | KEYDOWN key => if key =? K_SPACE then Game__start_game g else g
          | _ => g
          end in
        Running (g, e)
    end
  end.

(** [Game.handle_events] on the events polled this frame. *)
Fixpoint handle_events (evs : list Event) (s : Game * Env) : Outcome :=
  match evs with
  | [] => Running s
  | ev :: rest =>
      match handle_event ev s with
      | Running s' => handle_events rest s'
      | Exited e => Exited e
      end
  end.

(* ------------------------------------------------------------------ *)
(** ** Update logic *)

Section Update.

Variable sin : Q -> Q.

(** [if self.bg_x <= -SCREEN_WIDTH: self.bg_x += SCREEN_WIDTH] *)
Definition wrap_bg (g : Game) : Game :=
  if Qle_bool (bg_x g) (float (- SCREEN_WIDTH))
  then with_bg_x (bg_x g + float SCREEN_WIDTH)%Q g
  else g.

(** Wall spawning. The result tells whether a wall was spawned. *)
Definition spawn_wall (wall_spacing gap_sz : Z) (wall_spd : Q)
    (s : Game * Env) : Result (Game * Env * bool) :=
  let (g, e) := s in
  ' need <-
      match walls g with
      | [] => Ok true
      | _ => ' lw <- list_last (walls g) ;;
             Ok (Qltb (w_x lw) (float (SCREEN_WIDTH - wall_spacing)))
      end ;;
  if (need : bool) then
    ' (w, e) <- WallPair_init (SCREEN_WIDTH + 40) gap_sz wall_spd None e ;;
    Ok (with_walls (walls g ++ [w]) g, e, true)
  else Ok (g, e, false).

(** The part of the wall loop's body before the collision test: the wall
    moves, and is scored when the player has passed it. *)
Definition wall_pass (w : WallPair) (g : Game) : WallPair * Game :=
  let w := WallPair_update w in
  if negb (w_scored w)
     && Qltb (w_x w + float WALL_WIDTH) (float (p_x (player g)))
  then (WallPair_set_scored true w, with_score (score g + 1) g)
  else (w, g).

(** [for w in self.walls[:]: ...] over the snapshot [ws]. The flag of the
    result tells that a collision ended the frame. *)
Fixpoint walls_loop (ws : list WallPair) (s : Game * Env)
  : Result (Game * Env * bool) :=
  match ws with
  | [] => Ok (s, false)
  | w :: rest =>
      let (g, e) := s in
      let (w, g) := wall_pass w g in
      let g := with_walls (store w_oid w (walls g)) g in
      if WallPair_collides w (Player_rect (player g)) then
        Ok (Game__game_over (g, e), true)
      else if WallPair_off_screen w then
        ' l <- list_remove w_oid w (walls g) ;;
        walls_loop rest (with_walls l g, e)
      else walls_loop rest (g, e)
  end.

(** Enemy spawning. *)
Definition spawn_enemy (enemy_spd : Q) (enemy_freq : Z) (s : Game * Env)
  : Result (Game * Env) :=
  let (g, e) := s in
  let g := with_enemy_timer (enemy_timer g + 1) g in
  if enemy_timer g >=? enemy_freq then
    ' (en, e) <- Enemy_init enemy_spd e ;;
    let g := with_enemies (enemies g ++ [en]) g in
    Ok (with_enemy_timer 0 g, e)
  else Ok (g, e).

(** [for e in self.enemies[:]: ...] *)
Fixpoint enemies_loop (es : list Enemy) (s : Game * Env)
  : Result (Game * Env * bool) :=
  match es with
  | [] => Ok (s, false)
  | en :: rest =>
      let (g, e) := s in
      let en := Enemy_update sin en in
      let g := with_enemies (store e_oid en (enemies g)) g in
      if Enemy_collides en (Player_rect (player g)) then
        Ok (Game__game_over (g, e), true)
      else if Enemy_off_screen en then
        ' l <- list_remove e_oid en (enemies g) ;;
        enemies_loop rest (with_enemies l g, e)
      else enemies_loop rest (g, e)
  end.

(** Coin spawning, for a frame in which a wall was just spawned. *)
Definition spawn_coin (lv : Level) (wall_spacing : Z) (wall_spd : Q)
    (s : Game * Env) : Result (Game * Env) :=
  let (g, e) := s in
  let coin_chance := get (coin_spawn_chance lv) (5 # 10) in
  let max_coins := get (max_coins_on_screen lv) 3 in
  let (roll, e) := random e in
  if Qltb roll coin_chance && (Z.of_nat (length (coins g)) <? max_coins) then
    let speed_mult := get (coin_speed_multiplier lv) 1%Q in
    let min_gap_px := get (coin_min_gap_from_walls_px lv) 100 in
    let y_pad := get (coin_y_padding_px lv) 50 in
    ' latest <- list_last (walls g) ;;
    (* centre the coin in the open space between walls *)
    let space := wall_spacing + 40 - WALL_WIDTH in
    ' (jx, e) <- randint (-20) 20 e ;;
    let coin_x :=
      (w_x latest + float WALL_WIDTH + float (space / 2)
       - float (COIN_W / 2) + float jx)%Q in
    let coin_x :=
      pymax coin_x (w_x latest + float WALL_WIDTH + float min_gap_px)%Q in
    (* y near the flyable gap with some variation *)
    ' (jy, e) <-
        randint ((- w_gap_size latest) / 3) (w_gap_size latest / 3) e ;;
    let coin_y := w_gap_y latest + jy - COIN_H / 2 in
    let coin_y :=
      Z.max y_pad (Z.min (SCREEN_HEIGHT - y_pad - COIN_H) coin_y) in
    let (c, e) := Coin_init coin_x coin_y (wall_spd * speed_mult)%Q e in
    Ok (with_coins (coins g ++ [c]) g, e)
  else Ok (g, e).

(** [for c in self.coins[:]: ...] *)
Fixpoint coins_loop (coin_val : Z) (cs : list Coin) (g : Game)
  : Result Game :=
  match cs with
  | [] => Ok g
  | c :: rest =>
      let c := Coin_update sin c in
      let g := with_coins (store c_oid c (coins g)) g in
      if Coin_collides c (Player_rect (player g)) then
        let g := with_coins_collected (coins_collected g + coin_val) g in
        ' l <- list_remove c_oid c (coins g) ;;
        coins_loop coin_val rest (with_coins l g)
      else if Coin_off_screen c then
        ' l <- list_remove c_oid c (coins g) ;;
        coins_loop coin_val rest (with_coins l g)
      else coins_loop coin_val rest g
  end.

(** The START branch of [Game.update]. *)
Definition update_start (mouse_pos : Z * Z) (g : Game) : Game :=
  let g := with_btn_start (Button_update mouse_pos (btn_start g)) g in
  let g := with_player (Player_bob sin (player g)) g in
  let g := with_bg_x (bg_x g - (3 # 10))%Q g in
  wrap_bg g.

(** The PLAYING branch of [Game.update], steps (1) and (2): the level is
    resolved from the score and the player physics advance. *)
Definition playing_physics (g : Game) : Result (Level * Game) :=
  ' (lv, g) <- Game__level g ;;
  let grav := get (gravity lv) (3 # 10) in
  (* grace period: the player hovers at the start *)
  let grace := grace_frames g >? 0 in
  let g := if grace then with_grace_frames (grace_frames g - 1) g else g in
  Ok (lv, with_player (Player_update (Some grav) grace (player g)) g).

(** The PLAYING branch of [Game.update], steps (3) to (5), for a player
    that survived the physics step. *)
Definition playing_entities (lv : Level) (s : Game * Env)
  : Result (Game * Env) :=
  let (g, e) := s in
  (* background parallax *)
  let g := with_bg_x (bg_x g - get (wall_speed lv) 2 * (25 # 100))%Q g in
  let g := wrap_bg g in
  (* wall spawning *)
  let wall_spd := get (wall_speed lv) 2%Q in
  let gap_sz := Z.max (get (gap_size lv) 200) (PLAYER_H + 80) in
  let wall_spc := get (wall_spacing lv) 350 in
  ' (g, e, wall_just_spawned) <- spawn_wall wall_spc gap_sz wall_spd (g, e) ;;
  (* wall update *)
  ' (s1, over) <- walls_loop (walls g) (g, e) ;;
  if (over : bool) then Ok s1
  else
    (* enemy spawning *)
    let enemy_spd := get (enemy_speed lv) (15 # 10) in
    let enemy_freq := get (enemy_spawn_frames lv) 500 in
    ' (g, e) <- spawn_enemy enemy_spd enemy_freq s1 ;;
    (* enemy update *)
    ' (s2, over) <- enemies_loop (enemies g) (g, e) ;;
    if (over : bool) then Ok s2
    else
      (* coin spawning, alongside a wall spawn *)
      ' (g, e) <-
          (if (wall_just_spawned : bool)
           then spawn_coin lv wall_spc wall_spd s2 else Ok s2) ;;
      (* coin update *)
      let coin_val := get (coin_value lv) 1 in
      ' g <- coins_loop coin_val (coins g) g ;;
      Ok (g, e).

(** The PLAYING branch of [Game.update]. *)
Definition update_playing (s : Game * Env) : Result (Game * Env) :=
  let (g, e) := s in
  ' (lv, g) <- playing_physics g ;;
  if negb (p_alive (player g)) then Ok (Game__game_over (g, e))
  else playing_entities lv (g, e).

(** The GAME_OVER branch of [Game.update]. *)
Definition update_game_over (mouse_pos : Z * Z) (g : Game) : Game :=
  let g := with_btn_restart (Button_update mouse_pos (btn_restart g)) g in
  let g := with_bg_x (bg_x g - (15 # 100))%Q g in
  wrap_bg g.

(** [Game.update]; [mouse_pos] is what [pygame.mouse.get_pos()] returns. *)
Definition Game_update (mouse_pos : Z * Z) (s : Game * Env)
  : Result (Game * Env) :=
  let (g, e) := s in
  match state g with
  | START => Ok (update_start mouse_pos g, e)
  | PLAYING => update_playing s
  | GAME_OVER => Ok (update_game_over mouse_pos g, e)
  end.

(** One iteration of [Game.run]: the events of the frame, then the
    update. [None] when the process exited. *)
Definition run_frame (evs : list Event) (mouse_pos : Z * Z) (s : Game * Env)
  : option (Result (Game * Env)) :=
  match handle_events evs s with
  | Running s' => Some (Game_update mouse_pos s')
  | Exited _ => None
  end.

End Update.

(* ================================================================== *)
(** * Notions the properties are stated with *)
(* ================================================================== *)


(** The index [_level] leaves in [level_idx]. *)
Definition level_index (sc : Z) (lvs : list Level) : Z :=
  match level_scan sc 0 lvs with
  | Some (i, _) => i
  | None => Z.of_nat (length lvs) - 1
  end.

(** The threshold [_level] compares the score with. *)
Definition threshold (lv : Level) : Z := get (score_threshold lv) 999999.

(** Heights of the two pillar bodies, as the collision rectangles have
    them. *)
Definition top_height (w : WallPair) : Z := rh (WallPair_top_rect w).
Definition bottom_height (w : WallPair) : Z := rh (WallPair_bot_rect w).

(* ------------------------------------------------------------------ *)
(** ** Player physics *)

(** The velocity [Player.update] integrates with, and the position it
    integrates to before clamping. *)
Definition Player_step_vel (gravity : option Q) (grace : bool) (p : Player)
  : Q :=
  if negb grace
  then pymin (p_vel p + get gravity (p_gravity p))%Q (p_max_fall p)
  else 0%Q.

Definition Player_integrated_y (gravity : option Q) (grace : bool)
    (p : Player) : Q :=
  (p_y p + Player_step_vel gravity grace p)%Q.

(** The floor: [SCREEN_HEIGHT - PLAYER_H]. *)
Definition floor_y : Q := float (SCREEN_HEIGHT - PLAYER_H).

(** The player after the physics step of a PLAYING frame at level [lv]. *)
Definition physics_player (lv : Level) (g : Game) : Player :=
  Player_update (Some (get (gravity lv) (3 # 10))) (grace_frames g >? 0)
    (player g).

(** A player up to its [alive] flag. *)
Definition motion (p : Player) : Player := Player_set_alive true p.

(* ------------------------------------------------------------------ *)
(** ** Object identities *)

(** The objects of a collection are distinct and were allocated before
    [n]. *)
Definition oids_ok {A : Type} (oid : A -> nat) (n : nat) (l : list A)
  : Prop :=
  NoDup (map oid l) /\ Forall (fun a => (oid a < n)%nat) l.

(** [l'] holds some of the objects of [l], in the same order, each
    possibly in a new state. *)
Inductive thinned {A : Type} (oid : A -> nat) : list A -> list A -> Prop :=
| thinned_nil : thinned oid [] []
| thinned_drop (a : A) (l l' : list A) :
    thinned oid l l' -> thinned oid (a :: l) l'
| thinned_keep (a a' : A) (l l' : list A) :
    oid a' = oid a -> thinned oid l l' -> thinned oid (a :: l) (a' :: l').

(** The player is alive exactly when the game is not over. *)
Definition alive_inv (g : Game) : Prop :=
  p_alive (player g) = negb (State_eqb (state g) GAME_OVER).

(** Well-formed sessions: the three live collections hold distinct,
    allocated objects. *)
Definition wf (s : Game * Env) : Prop :=
  oids_ok w_oid (next_oid (snd s)) (walls (fst s)) /\
  oids_ok e_oid (next_oid (snd s)) (enemies (fst s)) /\
  oids_ok c_oid (next_oid (snd s)) (coins (fst s)).

(* ------------------------------------------------------------------ *)
(** ** Functional readings of the update loops *)

(** Whether this frame's move makes the wall score. *)
Definition wall_scores (px : Z) (w : WallPair) : bool :=
  negb (w_scored w)
  && Qltb (w_x (WallPair_update w) + float WALL_WIDTH) (float px).

(** The wall after the move and the scoring of [wall_pass]. *)
Definition wall_passed (px : Z) (w : WallPair) : WallPair :=
  if wall_scores px w then WallPair_set_scored true (WallPair_update w)
  else WallPair_update w.



(** The wall loop over the snapshot [ws]: what the visited part of the
    live list becomes, the points awarded, and whether a collision stopped
    the loop (the unvisited walls then stay as they are). *)
Fixpoint walls_scan (px : Z) (pr : Rect) (ws : list WallPair)
  : list WallPair * Z * bool :=
  match ws with
  | [] => ([], 0, false)
  | w :: rest =>
      let w' := wall_passed px w in
      let pts := if wall_scores px w then 1 else 0 in
      if WallPair_collides w' pr then (w' :: rest, pts, true)
      else
        let '(l, n, hit) := walls_scan px pr rest in
        (if WallPair_off_screen w' then l else w' :: l, pts + n, hit)
  end.

Section Scans.

Variable sin : Q -> Q.

(** The enemy loop over the snapshot [es], likewise. *)
Fixpoint enemies_scan (pr : Rect) (es : list Enemy) : list Enemy * bool :=
  match es with
  | [] => ([], false)
  | en :: rest =>
      let en' := Enemy_update sin en in
      if Enemy_collides en' pr then (en' :: rest, true)
      else
        let '(l, hit) := enemies_scan pr rest in
        (if Enemy_off_screen en' then l else en' :: l, hit)
  end.

(** A coin that the coin loop picks up: its moved hit-box overlaps the
    player's. *)
Definition coin_picked (pr : Rect) (c : Coin) : bool :=
  Coin_collides (Coin_update sin c) pr.

(** A coin that the coin loop keeps: neither picked up nor off screen. *)
Definition coin_kept (pr : Rect) (c : Coin) : bool :=
  negb (Coin_collides (Coin_update sin c) pr)
  && negb (Coin_off_screen (Coin_update sin c)).

(* ------------------------------------------------------------------ *)
(** ** Executions *)

(** One step of the session: an event is handled, or a frame is
    updated. *)
Inductive step : Game * Env -> Game * Env -> Prop :=
| step_event (ev : Event) (s s' : Game * Env) :
    handle_event ev s = Running s' -> step s s'
| step_update (mouse_pos : Z * Z) (s s' : Game * Env) :
    Game_update sin mouse_pos s = Ok s' -> step s s'.


(** The sessions a run of the program goes through. *)
Inductive reachable : Game * Env -> Prop :=
| reach_init (lvs : list Level) (e : Env) : reachable (Game_init lvs e, e)
| reach_step (s s' : Game * Env) : reachable s -> step s s' -> reachable s'.

End Scans.


(** The background offset after the wrap-around test of [Game.update]. *)
Definition wrapped (x : Q) : Q :=
  if Qle_bool x (float (- SCREEN_WIDTH)) then (x + float SCREEN_WIDTH)%Q
  else x.

(** [l[i]], with Python's negative indices. *)
Definition list_item {A : Type} (l : list A) (i : Z) : Result A :=
  let j := if i <? 0 then i + Z.of_nat (length l) else i in
  if j <? 0 then Raise IndexError
  else match nth_error l (Z.to_nat j) with
       | Some a => Ok a
       | None => Raise IndexError
       end.

(** [self.levels[self.level_idx]]: the level [_draw_playing] names in the
    HUD. *)
Definition hud_level (g : Game) : Result Level :=
  list_item (levels g) (level_idx g).

(** The test of [_draw_gameover] for the NEW HIGH SCORE! line. *)
Definition new_high_score_line (g : Game) : bool :=
  (score g >=? high_score g) && (score g >? 0).

(** What every session of a run satisfies. *)
Definition session_inv (s : Game * Env) : Prop :=
  let (g, e) := s in
  0 <= score g /\
  0 <= grace_frames g <= 50 /\
  0 <= enemy_timer g /\
  p_x (player g) = PLAYER_X /\
  p_flap_power (player g) = (- (6))%Q /\
  p_max_fall (player g) = 7%Q /\
  (p_vel (player g) <= 7)%Q /\
  (state g <> START ->
   (0 <= p_y (player g))%Q /\ (p_y (player g) <= floor_y)%Q) /\
  load_highscore e = high_score g /\
  (state g = GAME_OVER -> score g <= high_score g) /\
  (levels g <> [] -> 0 <= level_idx g < Z.of_nat (length (levels g))) /\
  (state g = START ->
   score g = 0 /\ coins_collected g = 0 /\
   walls g = [] /\ enemies g = [] /\ coins g = []).

(** The session after a flap input in PLAYING. *)
Definition flapped (g : Game) : Game :=
  let g := with_player (Player_flap (player g)) g in
  if grace_frames g >? 0 then with_grace_frames 0 g else g.

(** What one step keeps: well-formedness, the link between the alive flag
    and the state, the level table; identities only grow, and a coin of
    the collection either was there before or is a new object. *)
Definition step_keeps (s s' : Game * Env) : Prop :=
  wf s' /\ alive_inv (fst s') /\
  (next_oid (snd s) <= next_oid (snd s'))%nat /\
  levels (fst s') = levels (fst s) /\
  (forall c', In c' (coins (fst s')) ->
     (exists c, In c (coins (fst s)) /\ c_oid c = c_oid c') \/
     (next_oid (snd s) <= c_oid c')%nat).

(* ================================================================== *)
(** * Concrete inputs used by the examples *)
(* ================================================================== *)

(** An environment whose generator yields [r] at every draw. *)
Definition env_const (r : Z) (f : HSFile) : Env :=
  {| rng_seq := fun _ => r; rng_pos := 0; hs_file := f; next_oid := 0 |}.

(** A stand-in for [math.sin] in evaluations. *)
Definition sin0 : Q -> Q := fun _ => 0%Q.

(** A level that leaves every tunable at its default. *)
Definition level_default (threshold : option Z) : Level :=
  mkLevel threshold None None None None None None None None None None None
          None.

(** A level table with three tiers, thresholds 5 and 15, the last open. *)
Definition levels3 : list Level :=
  [ level_default (Some 5); level_default (Some 15); level_default None ].

(** A game that ended with score 12 and bonus 4. *)
Definition game_over_example : Game :=
  with_state GAME_OVER
    (with_score 12
       (with_coins_collected 4 (Game_init levels3 (env_const 0 Missing)))).

(** A session that was just started from the title screen. *)
Definition playing_example : Game :=
  Game__start_game (Game_init levels3 (env_const 0 Missing)).

(** A wall pair at [x], moving left by 2 a frame, with its gap between 280
    and 480. *)
Definition wall_example (x : Q) : WallPair :=
  {| w_oid := 0; w_x := x; w_speed := 2; w_gap_size := 200;
     w_scored := false; w_gap_y := 380; w_top_h := 280; w_bot_start := 480 |}.

(** A live player at height [y] with velocity [vel]. *)
Definition player_at (y vel : Q) : Player :=
  {| p_x := PLAYER_X; p_y := y; p_vel := vel; p_alive := true; p_bob_t := 0;
     p_gravity := 3 # 10; p_flap_power := - (6); p_max_fall := 7 |}.


(** An environment that has already allocated [n] objects. *)
Definition env_after (n : nat) : Env :=
  {| rng_seq := fun _ => 0; rng_pos := 0; hs_file := Missing; next_oid := n |}.

(** A session in which the next move of the only wall brings its upper
    pillar onto the player. *)
Definition collision_example : Game :=
  with_walls [wall_example 152]
    (with_player (player_at 208 0) playing_example).

(* ================================================================== *)
(** * Basic facts *)
(* ================================================================== *)

Lemma Qltb_lt (a b : Q) : Qltb a b = true <-> (a < b)%Q.
Proof.
  unfold Qltb. rewrite negb_true_iff. split; intro H.
  - apply Qnot_le_lt. intro Hle. apply Qle_bool_iff in Hle. congruence.
  - destruct (Qle_bool b a) eqn:E; [|reflexivity].
    apply Qle_bool_iff in E. exfalso. exact (Qlt_not_le _ _ H E).
Qed.

Lemma Qltb_ge (a b : Q) : Qltb a b = false <-> (b <= a)%Q.
Proof.
  unfold Qltb. rewrite negb_false_iff. apply Qle_bool_iff.
Qed.

Lemma bind_Ok {A B : Type} (r : Result A) (k : A -> Result B) (b : B) :
  bind r k = Ok b -> exists a, r = Ok a /\ k a = Ok b.
Proof.
  destruct r as [a|x]; simpl; intro H; [eauto | discriminate].
Qed.

(* ------------------------------------------------------------------ *)
(** ** The random source *)

Lemma randint_range (a b : Z) (e : Env) (v : Z) (e' : Env) :
  randint a b e = Ok (v, e') -> a <= v <= b.
Proof.
  unfold randint. destruct (a <=? b) eqn:Hab; [|discriminate].
  apply Z.leb_le in Hab. simpl. intro H. inversion H; subst.
  pose proof (Z.mod_pos_bound (rng_seq e (rng_pos e)) (b - a + 1)).
  lia.
Qed.

Lemma randint_total (a b : Z) (e : Env) :
  a <= b -> exists v e', randint a b e = Ok (v, e').
Proof.
  intro Hab. unfold randint. apply Z.leb_le in Hab. rewrite Hab.
  simpl. eauto.
Qed.

Lemma randint_env (a b : Z) (e : Env) (v : Z) (e' : Env) :
  randint a b e = Ok (v, e') ->
  next_oid e' = next_oid e /\ hs_file e' = hs_file e.
Proof.
  unfold randint. destruct (a <=? b); [|discriminate].
  simpl. intro H. inversion H; subst. simpl. auto.
Qed.

(* ------------------------------------------------------------------ *)
(** ** High score *)

Lemma load_save_highscore (sc : Z) (e : Env) :
  load_highscore (snd (save_highscore sc e)) = Z.max (load_highscore e) sc.
Proof.
  unfold save_highscore.
  destruct (sc >? load_highscore e) eqn:H; simpl.
  - apply Z.gtb_lt in H. unfold load_highscore at 1. simpl. lia.
  - rewrite Z.gtb_ltb in H. apply Z.ltb_ge in H. lia.
Qed.




Lemma fold_max_attained (scores : list Z) (m : Z) :
  fold_left Z.max scores m = m \/ In (fold_left Z.max scores m) scores.
Proof.
  revert m. induction scores as [|x rest IH]; intro m; simpl.
  - left. reflexivity.
  - destruct (IH (Z.max m x)) as [H|H].
    + rewrite H. destruct (Z.max_spec m x) as [[_ E]|[_ E]]; rewrite E; auto.
    + right. right. exact H.
Qed.

(* ------------------------------------------------------------------ *)
(** ** Level look-up *)

Lemma level_scan_Some (sc : Z) (lvs : list Level) :
  forall i j lv,
    level_scan sc i lvs = Some (j, lv) ->
    i <= j < i + Z.of_nat (length lvs) /\
    nth_error lvs (Z.to_nat (j - i)) = Some lv /\
    sc < threshold lv /\
    (forall k lv', (k < Z.to_nat (j - i))%nat ->
                   nth_error lvs k = Some lv' -> threshold lv' <= sc).
Proof.
  induction lvs as [|l rest IH]; intros i j lv H; simpl in H.
  - discriminate.
  - fold (threshold l) in H. destruct (sc <? threshold l) eqn:Hlt.
    + inversion H; subst. apply Z.ltb_lt in Hlt.
      replace (j - j) with 0 by lia. simpl.
      split; [lia|]. split; [reflexivity|]. split; [exact Hlt|].
      intros k lv' Hk. lia.
    + apply Z.ltb_ge in Hlt. apply IH in H.
      destruct H as (Hr & Hn & Hs & Hall).
      assert (Hz : Z.to_nat (j - i) = S (Z.to_nat (j - (i + 1)))) by lia.
      rewrite Hz. simpl length.
      split; [lia|]. split; [exact Hn|]. split; [exact Hs|].
      intros k lv' Hk Hnth. destruct k as [|k]; simpl in Hnth.
      * inversion Hnth; subst. exact Hlt.
      * apply (Hall k lv'); [lia | exact Hnth].
Qed.

Lemma level_scan_None (sc : Z) (lvs : list Level) :
  forall i, level_scan sc i lvs = None ->
            forall lv, In lv lvs -> threshold lv <= sc.
Proof.
  induction lvs as [|l rest IH]; intros i H lv Hin; simpl in H.
  - contradiction.
  - fold (threshold l) in H. destruct (sc <? threshold l) eqn:Hlt.
    + discriminate.
    + apply Z.ltb_ge in Hlt. destruct Hin as [->|Hin].
      * exact Hlt.
      * exact (IH _ H lv Hin).
Qed.

Lemma level_scan_mono (a b : Z) (lvs : list Level) :
  a <= b ->
  forall i j lv,
    level_scan b i lvs = Some (j, lv) ->
    exists j' lv', level_scan a i lvs = Some (j', lv') /\ j' <= j.
Proof.
  intro Hab. induction lvs as [|l rest IH]; intros i j lv H; simpl in H.
  - discriminate.
  - simpl. fold (threshold l) in *. destruct (b <? threshold l) eqn:Hb.
    + injection H as Hj Hl. apply Z.ltb_lt in Hb.
      assert (Ha : (a <? threshold l) = true) by (apply Z.ltb_lt; lia).
      rewrite Ha. exists i, l. split; [reflexivity | lia].
    + destruct (a <? threshold l) eqn:Ha.
      * apply level_scan_Some in H. exists i, l. split; [reflexivity | lia].
      * exact (IH _ _ _ H).
Qed.

Lemma list_last_app {A : Type} (l : list A) (a : A) :
  list_last (l ++ [a]) = Ok a.
Proof.
  unfold list_last. rewrite rev_app_distr. reflexivity.
Qed.

Lemma list_last_nonempty {A : Type} (l : list A) :
  l <> [] ->
  exists a, list_last l = Ok a /\
            nth_error l (length l - 1) = Some a.
Proof.
  intro Hne. destruct (exists_last Hne) as (l' & a & ->).
  exists a. split; [apply list_last_app|].
  rewrite length_app. simpl.
  replace (length l' + 1 - 1)%nat with (length l') by lia.
  rewrite nth_error_app2 by lia. rewrite Nat.sub_diag. reflexivity.
Qed.

(* ================================================================== *)
(** * Obstacle generation *)
(* ================================================================== *)

Lemma create_rock_surface_Ok (h : Z) (u : unit) :
  create_rock_surface h = Ok u -> 24 <= h.
Proof.
  unfold create_rock_surface. destruct (h <? 24) eqn:E; [discriminate|].
  intros _. apply Z.ltb_ge in E. exact E.
Qed.

(** What the generator ([gap_y] left to the random source) builds. *)
Lemma WallPair_init_generated (x g : Z) (speed : Q) (e : Env)
    (w : WallPair) (e' : Env) :
  WallPair_init x g speed None e = Ok (w, e') ->
  70 + g / 2 <= w_gap_y w <= SCREEN_HEIGHT - 70 - g / 2 /\
  w_oid w = next_oid e /\ w_x w = float x /\ w_speed w = speed /\
  w_gap_size w = g /\ w_scored w = false /\
  w_top_h w = w_gap_y w - g / 2 /\
  w_bot_start w = w_gap_y w + g / 2 /\
  next_oid e' = S (next_oid e) /\ hs_file e' = hs_file e.
Proof.
  unfold WallPair_init, alloc. intro H.
  apply bind_Ok in H. destruct H as ([gy e1] & Hr & H).
  apply bind_Ok in H. destruct H as (u1 & _ & H).
  apply bind_Ok in H. destruct H as (u2 & _ & H).
  injection H as <- <-.
  cbn [w_oid w_x w_speed w_gap_size w_scored w_gap_y w_top_h w_bot_start].
  pose proof (randint_range _ _ _ _ _ Hr) as Hrange.
  pose proof (randint_env _ _ _ _ _ Hr) as [Hn Hf].
  cbn [next_oid hs_file] in Hn, Hf.
  unfold SCREEN_HEIGHT in *. repeat split; try lia; assumption.
Qed.

Lemma WallPair_init_total (x g : Z) (speed : Q) (e : Env) :
  g / 2 <= 230 ->
  exists w e', WallPair_init x g speed None e = Ok (w, e').
Proof.
  intro Hg. unfold WallPair_init, alloc.
  destruct (randint_total (70 + g / 2) (SCREEN_HEIGHT - 70 - g / 2)
              {| rng_seq := rng_seq e; rng_pos := rng_pos e;
                 hs_file := hs_file e; next_oid := S (next_oid e) |})
    as (gy & e1 & Hr); [unfold SCREEN_HEIGHT; lia|].
  rewrite Hr. cbn [bind].
  pose proof (randint_range _ _ _ _ _ Hr) as Hrange.
  unfold SCREEN_HEIGHT in *.
  unfold create_rock_surface.
  assert (H1 : (Z.max 10 (gy - g / 2) <? 24) = false)
    by (apply Z.ltb_ge; lia).
  assert (H2 : (Z.max 10 (600 - (gy + g / 2)) <? 24) = false)
    by (apply Z.ltb_ge; lia).
  rewrite H1. cbn [bind]. rewrite H2. cbn [bind]. eauto.
Qed.

(** C1 (amended). Whenever the gap size admits a gap centre (its half is at
    most 230) the generator returns a wall pair, and for every wall pair it
    returns: both pillar bodies are at least the margin of 70 pixels high,
    the gap centre lies in the clamped range, and the top body, twice the
    rounded-down half of the gap size and the bottom body add up to the
    screen height; with the gap size itself the sum is the screen height
    plus the parity of the gap size, hence the screen height exactly for an
    even gap size. *)
Theorem wallpair_generator_heights (x g : Z) (speed : Q) (e : Env) :
  (g / 2 <= 230 ->
   exists w e', WallPair_init x g speed None e = Ok (w, e')) /\
  (forall w e',
     WallPair_init x g speed None e = Ok (w, e') ->
     70 + g / 2 <= w_gap_y w <= SCREEN_HEIGHT - 70 - g / 2 /\
     70 <= top_height w /\
     70 <= bottom_height w /\
     top_height w + 2 * (g / 2) + bottom_height w = SCREEN_HEIGHT /\
     top_height w + g + bottom_height w = SCREEN_HEIGHT + g mod 2 /\
     (Z.even g = true ->
      top_height w + g + bottom_height w = SCREEN_HEIGHT)).
Proof.
  split; [apply WallPair_init_total|].
  intros w e' H. apply WallPair_init_generated in H.
  destruct H as (Hr & _ & _ & _ & _ & _ & Ht & Hb & _).
  unfold top_height, bottom_height, WallPair_top_rect, WallPair_bot_rect.
  cbn [rh]. rewrite Ht, Hb. unfold SCREEN_HEIGHT in *.
  pose proof (Z.div_mod g 2 ltac:(lia)) as Hdm.
  repeat split; try lia.
  intro Hev. rewrite Zmod_even, Hev in Hdm. lia.
Qed.

(** The generator at a gap size of 200 and a concrete random source. *)
Lemma wallpair_generator_heights_witness :
  exists w e',
    WallPair_init 840 200 2 None (env_const 7 Missing) = Ok (w, e') /\
    70 <= top_height w /\ 70 <= bottom_height w /\
    top_height w + 200 + bottom_height w = SCREEN_HEIGHT.
Proof.
  destruct (wallpair_generator_heights 840 200 2 (env_const 7 Missing))
    as [Hex Hall].
  destruct (Hex ltac:(vm_compute; discriminate)) as (w & e' & H).
  exists w, e'. split; [exact H|].
  destruct (Hall w e' H) as (_ & Ht & Hb & _ & _ & Hev).
  split; [exact Ht|]. split; [exact Hb|]. apply Hev. reflexivity.
Defined.

(** C1 as stated fails: with the odd gap size 151 the generated bodies and
    the gap size add up to 601, not to the screen height. *)
Lemma wallpair_odd_gap_counterexample :
  ~ (forall (x g : Z) (speed : Q) (e : Env) (w : WallPair) (e' : Env),
       WallPair_init x g speed None e = Ok (w, e') ->
       70 <= top_height w /\ 70 <= bottom_height w /\
       top_height w + g + bottom_height w = SCREEN_HEIGHT).
Proof.
  intro H.
  destruct (WallPair_init 840 151 2 None (env_const 0 Missing))
    as [[w e']|x] eqn:E; [|vm_compute in E; discriminate].
  specialize (H _ _ _ _ _ _ E). vm_compute in E. injection E as <- <-.
  destruct H as (_ & _ & H). vm_compute in H. discriminate.
Qed.

(* ================================================================== *)
(** * Level selection *)
(* ================================================================== *)

Lemma level_index_range (sc : Z) (lvs : list Level) :
  lvs <> [] -> 0 <= level_index sc lvs < Z.of_nat (length lvs).
Proof.
  intro Hne. unfold level_index.
  destruct (level_scan sc 0 lvs) as [[i lv]|] eqn:E.
  - apply level_scan_Some in E. lia.
  - destruct lvs; [congruence|]. simpl length. lia.
Qed.

Lemma level_index_mono (a b : Z) (lvs : list Level) :
  lvs <> [] -> a <= b -> level_index a lvs <= level_index b lvs.
Proof.
  intros Hne Hab. unfold level_index.
  destruct (level_scan b 0 lvs) as [[j lv]|] eqn:Eb.
  - destruct (level_scan_mono a b lvs Hab _ _ _ Eb) as (j' & lv' & Ea & Hle).
    rewrite Ea. exact Hle.
  - destruct (level_scan a 0 lvs) as [[i lv]|] eqn:Ea.
    + apply level_scan_Some in Ea. lia.
    + lia.
Qed.

(** C5. For every score and every non-empty level table, [_level] returns
    the entry at [level_index], which is the first entry whose threshold
    strictly exceeds the score, or the last entry when no threshold does;
    and the selected index is monotone in the score. *)
Theorem level_selection_first_exceeding (g : Game) :
  levels g <> [] ->
  (exists lv,
     Game__level g
       = Ok (lv, with_level_idx (level_index (score g) (levels g)) g) /\
     nth_error (levels g) (Z.to_nat (level_index (score g) (levels g)))
       = Some lv /\
     0 <= level_index (score g) (levels g) < Z.of_nat (length (levels g)) /\
     ((score g < threshold lv /\
       forall k lv', (k < Z.to_nat (level_index (score g) (levels g)))%nat ->
                     nth_error (levels g) k = Some lv' ->
                     threshold lv' <= score g)
      \/
      (level_index (score g) (levels g) = Z.of_nat (length (levels g)) - 1 /\
       forall lv', In lv' (levels g) -> threshold lv' <= score g))) /\
  (forall a b, a <= b ->
               level_index a (levels g) <= level_index b (levels g)).
Proof.
  intro Hne. split.
  - pose proof (level_index_range (score g) (levels g) Hne) as Hrange.
    unfold Game__level, level_index in *.
    destruct (level_scan (score g) 0 (levels g)) as [[i lv]|] eqn:E.
    + exists lv. pose proof (level_scan_Some _ _ _ _ _ E) as (_ & Hn & Hs & Hall).
      replace (i - 0) with i in * by lia.
      split; [reflexivity|]. split; [exact Hn|]. split; [exact Hrange|].
      left. split; [exact Hs | exact Hall].
    + destruct (list_last_nonempty (levels g) Hne) as (lv & Hl & Hn).
      exists lv. rewrite Hl. simpl.
      split; [reflexivity|]. split.
      * replace (Z.to_nat (Z.of_nat (length (levels g)) - 1))
          with (length (levels g) - 1)%nat by lia. exact Hn.
      * split; [exact Hrange|]. right. split; [reflexivity|].
        exact (level_scan_None _ _ _ E).
  - intros a b. apply level_index_mono, Hne.
Qed.

(** Level selection on the three-tier table at score 7, and scores 3 and
    20 compared. *)
Lemma level_selection_first_exceeding_witness :
  (exists lv,
     Game__level (with_score 7 (Game_init levels3 (env_const 0 Missing)))
       = Ok (lv, with_level_idx 1
                   (with_score 7 (Game_init levels3 (env_const 0 Missing))))) /\
  level_index 3 levels3 <= level_index 20 levels3.
Proof.
  destruct (level_selection_first_exceeding
              (with_score 7 (Game_init levels3 (env_const 0 Missing)))
              ltac:(discriminate)) as [(lv & H & _) Hmono].
  split.
  - exists lv. exact H.
  - apply (Hmono 3 20). lia.
Defined.

(* ================================================================== *)
(** * Restart *)
(* ================================================================== *)

Lemma handle_event_restart (ev : Event) (g : Game) (e : Env)
    (g' : Game) (e' : Env) :
  state g <> PLAYING ->
  handle_event ev (g, e) = Running (g', e') ->
  state g' = PLAYING ->
  g' = Game__start_game g /\ e' = e.
Proof.
  intros Hst H Hpl. unfold handle_event in H.
  destruct ev as [|button pos|key|].
  - discriminate.
  - destruct (state g) eqn:Es; [| congruence |].
    + destruct button as [|[p|p|]|p];
        try (injection H as <- <-; congruence).
      destruct (Button_clicked (btn_start g) pos);
        injection H as <- <-; [auto | congruence].
    + destruct button as [|[p|p|]|p];
        try (injection H as <- <-; congruence).
      destruct (Button_clicked (btn_restart g) pos);
        injection H as <- <-; [auto | congruence].
  - destruct (state g) eqn:Es; [| congruence |].
    + injection H as <- <-. congruence.
    + destruct (key =? K_SPACE); injection H as <- <-; [auto | congruence].
  - destruct (state g) eqn:Es; [| congruence |];
      injection H as <- <-; congruence.
Qed.

(** C6. [_start_game] leaves the session at score 0, bonus 0, empty
    obstacle, enemy and collectible collections, an active grace period of
    50 frames, enemy timer 0, level index 0 and the player alive at its
    initial position with zero velocity; and every event that takes the
    session from START or GAME_OVER to PLAYING does so through
    [_start_game]. *)
Theorem restart_fully_resets :
  (forall g : Game,
     let g' := Game__start_game g in
     state g' = PLAYING /\ score g' = 0 /\ coins_collected g' = 0 /\
     walls g' = [] /\ enemies g' = [] /\ coins g' = [] /\
     grace_frames g' = 50 /\ grace_frames g' > 0 /\
     enemy_timer g' = 0 /\ level_idx g' = 0 /\
     p_alive (player g') = true /\
     p_x (player g') = p_x (player g) /\
     p_y (player g') = p_y Player_init /\
     p_vel (player g') = 0%Q) /\
  (forall (ev : Event) (g : Game) (e : Env) (g' : Game) (e' : Env),
     state g = START \/ state g = GAME_OVER ->
     handle_event ev (g, e) = Running (g', e') ->
     state g' = PLAYING ->
     g' = Game__start_game g /\ e' = e).
Proof.
  split.
  - intro g. cbv zeta. unfold Game__start_game. cbn.
    repeat split; reflexivity.
  - intros ev g e g' e' Hst H Hpl.
    apply (handle_event_restart ev g e g' e'); try assumption.
    destruct Hst as [Hs|Hs]; rewrite Hs; discriminate.
Qed.

Lemma restart_fully_resets_witness :
  handle_event (KEYDOWN K_SPACE) (game_over_example, env_const 0 Missing)
  = Running (Game__start_game game_over_example, env_const 0 Missing) /\
  score (Game__start_game game_over_example) = 0.
Proof.
  destruct restart_fully_resets as [Hreset Hev].
  destruct (Hev (KEYDOWN K_SPACE) game_over_example (env_const 0 Missing)
              (Game__start_game game_over_example) (env_const 0 Missing)
              (or_intror eq_refl) eq_refl eq_refl) as [_ _].
  split; [reflexivity|].
  exact (proj1 (proj2 (Hreset game_over_example))).
Defined.

(* ================================================================== *)
(** * Persisted best score *)
(* ================================================================== *)







(* ================================================================== *)
(** * The GAME_OVER frame *)
(* ================================================================== *)

Section Frames.

Variable sin : Q -> Q.

(** C8. A frame spent in GAME_OVER leaves the player, the obstacles,
    enemies and collectibles, the score and the bonus total as they were
    (and with them the state, the timers, the level index, the best score
    and the environment); of the session data only the background drift
    moves, by 0.15 with wrap-around, and the restart button refreshes its
    hover highlight. *)
Theorem game_over_frame_frozen (mouse_pos : Z * Z) (g : Game) (e : Env) :
  state g = GAME_OVER ->
  exists g',
    Game_update sin mouse_pos (g, e) = Ok (g', e) /\
    player g' = player g /\ walls g' = walls g /\
    enemies g' = enemies g /\ coins g' = coins g /\
    score g' = score g /\ coins_collected g' = coins_collected g /\
    state g' = GAME_OVER /\ grace_frames g' = grace_frames g /\
    enemy_timer g' = enemy_timer g /\ level_idx g' = level_idx g /\
    high_score g' = high_score g /\ levels g' = levels g /\
    btn_start g' = btn_start g /\
    b_rect (btn_restart g') = b_rect (btn_restart g) /\
    (bg_x g' = (bg_x g - (15 # 100))%Q \/
     bg_x g' = (bg_x g - (15 # 100) + float SCREEN_WIDTH)%Q).
Proof.
  intro Hst. unfold Game_update. rewrite Hst.
  eexists. split; [reflexivity|].
  unfold update_game_over, wrap_bg.
  cbn [bg_x with_bg_x with_btn_restart].
  destruct (Qle_bool (bg_x g - (15 # 100)) (float (- SCREEN_WIDTH)));
    cbn; rewrite ?Hst; repeat split; auto.
Qed.

End Frames.

Lemma game_over_frame_frozen_witness :
  exists g',
    Game_update sin0 (0, 0) (game_over_example, env_const 0 Missing)
    = Ok (g', env_const 0 Missing) /\
    score g' = 12 /\ coins_collected g' = 4 /\ state g' = GAME_OVER.
Proof.
  destruct (game_over_frame_frozen sin0 (0, 0) game_over_example
              (env_const 0 Missing) eq_refl)
    as (g' & H & _ & _ & _ & _ & Hs & Hc & Hst & _).
  exists g'. split; [exact H|]. split; [exact Hs|]. split; [exact Hc|].
  exact Hst.
Defined.

(* ================================================================== *)
(** * Player physics *)
(* ================================================================== *)

Lemma floor_y_pos : (0 < floor_y)%Q.
Proof. reflexivity. Qed.

Lemma Player_update_y_range (gravity : option Q) (grace : bool) (p : Player) :
  (0 <= p_y (Player_update gravity grace p) /\
   p_y (Player_update gravity grace p) <= floor_y)%Q.
Proof.
  pose proof floor_y_pos as Hf.
  unfold Player_update.
  change (match gravity with Some g => g | None => p_gravity p end)
    with (get gravity (p_gravity p)).
  change (if negb grace
          then pymin (p_vel p + get gravity (p_gravity p)) (p_max_fall p)
          else 0%Q) with (Player_step_vel gravity grace p).
  change (p_y p + Player_step_vel gravity grace p)%Q
    with (Player_integrated_y gravity grace p).
  fold floor_y.
  destruct (Qltb (Player_integrated_y gravity grace p) 0) eqn:E1.
  - assert (E2 : Qltb floor_y 0 = false) by reflexivity.
    rewrite E2. cbn [p_y]. split; [apply Qle_refl | apply Qlt_le_weak, Hf].
  - apply Qltb_ge in E1.
    destruct (Qltb floor_y (Player_integrated_y gravity grace p)) eqn:E2;
      cbn [p_y].
    + split; [apply Qlt_le_weak, Hf | apply Qle_refl].
    + apply Qltb_ge in E2. split; assumption.
Qed.

Lemma Player_update_motion_fields (gravity : option Q) (grace : bool)
    (p : Player) :
  p_x (Player_update gravity grace p) = p_x p /\
  p_flap_power (Player_update gravity grace p) = p_flap_power p /\
  p_max_fall (Player_update gravity grace p) = p_max_fall p.
Proof.
  unfold Player_update.
  destruct (Qltb _ 0); destruct (Qltb (float (SCREEN_HEIGHT - PLAYER_H)) _);
    cbn; auto.
Qed.

Lemma Player_rect_motion (p q : Player) :
  motion p = motion q -> Player_rect p = Player_rect q.
Proof.
  unfold motion, Player_set_alive, Player_rect. intro H.
  injection H as Hx Hy _ _ _ _ _. rewrite Hx, Hy. reflexivity.
Qed.

Lemma motion_set_alive (b : bool) (p : Player) :
  motion (Player_set_alive b p) = motion p.
Proof. reflexivity. Qed.

(* ================================================================== *)
(** * The update loops *)
(* ================================================================== *)

(** The loops of [Game.update] iterate over a snapshot of a collection
    while they mutate and remove the objects of the live list. On
    collections of distinct objects they compute what the functional
    readings [walls_scan], [enemies_scan], [coin_picked] and [coin_kept]
    describe. *)

Section ObjectListFacts.
Context {A : Type}.
Variable oid : A -> nat.

Lemma store_app_here (kept : list A) (a b : A) (rest : list A) :
  ~ In (oid a) (map oid kept) -> oid b = oid a ->
  store oid a (kept ++ b :: rest) = kept ++ a :: rest.
Proof.
  intros Hnin Hab. induction kept as [|k kept IH]; simpl.
  - rewrite Hab, Nat.eqb_refl. reflexivity.
  - destruct (Nat.eqb (oid k) (oid a)) eqn:E.
    + apply Nat.eqb_eq in E. exfalso. apply Hnin. left. exact E.
    + f_equal. apply IH. intro H. apply Hnin. right. exact H.
Qed.

Lemma list_remove_app_here (kept : list A) (a b : A) (rest : list A) :
  ~ In (oid a) (map oid kept) -> oid b = oid a ->
  list_remove oid a (kept ++ b :: rest) = Ok (kept ++ rest).
Proof.
  intros Hnin Hab. induction kept as [|k kept IH]; simpl.
  - rewrite Hab, Nat.eqb_refl. reflexivity.
  - destruct (Nat.eqb (oid k) (oid a)) eqn:E.
    + apply Nat.eqb_eq in E. exfalso. apply Hnin. left. exact E.
    + rewrite IH; [reflexivity|]. intro H. apply Hnin. right. exact H.
Qed.

Lemma NoDup_oids_mid (kept : list A) (b : A) (rest : list A) :
  NoDup (map oid (kept ++ b :: rest)) ->
  ~ In (oid b) (map oid kept) /\ NoDup (map oid (kept ++ rest)).
Proof.
  rewrite !map_app. simpl. intro H.
  apply NoDup_remove in H. destruct H as [Hnd Hnin]. split.
  - intro Hin. apply Hnin. apply in_or_app. left. exact Hin.
  - exact Hnd.
Qed.

Lemma NoDup_oids_replace (kept : list A) (a b : A) (rest : list A) :
  oid a = oid b ->
  NoDup (map oid (kept ++ b :: rest)) ->
  NoDup (map oid ((kept ++ [a]) ++ rest)).
Proof.
  intros Hab H. rewrite <- app_assoc. simpl.
  rewrite map_app in *. simpl in *. rewrite Hab. exact H.
Qed.

End ObjectListFacts.

Lemma wall_pass_eq (w : WallPair) (g : Game) :
  wall_pass w g =
  (wall_passed (p_x (player g)) w,
   if wall_scores (p_x (player g)) w then with_score (score g + 1) g else g).
Proof.
  unfold wall_pass, wall_passed, wall_scores. cbn [w_scored WallPair_update].
  destruct (negb (w_scored w) && _); reflexivity.
Qed.

Lemma wall_passed_oid px w : w_oid (wall_passed px w) = w_oid w.
Proof. unfold wall_passed. destruct (wall_scores px w); reflexivity. Qed.

Lemma walls_loop_scan (ws : list WallPair) :
  forall (kept : list WallPair) (g : Game) (e : Env),
    walls g = kept ++ ws ->
    NoDup (map w_oid (kept ++ ws)) ->
    walls_loop ws (g, e) =
    let '(l, n, hit) :=
      walls_scan (p_x (player g)) (Player_rect (player g)) ws in
    let g' := with_score (score g + n) (with_walls (kept ++ l) g) in
    if (hit : bool) then Ok (Game__game_over (g', e), true)
    else Ok ((g', e), false).
Proof.
  induction ws as [|w rest IH]; intros kept g e Hw Hnd.
  - cbn [walls_loop walls_scan]. rewrite app_nil_r in *.
    rewrite Z.add_0_r, <- Hw. destruct g; reflexivity.
  - cbn [walls_loop walls_scan]. rewrite wall_pass_eq.
    destruct (NoDup_oids_mid w_oid _ _ _ Hnd) as [Hnin Hnd'].
    set (px := p_x (player g)). set (pr := Player_rect (player g)).
    set (w' := wall_passed px w).
    assert (Hoid : w_oid w = w_oid w') by (symmetry; apply wall_passed_oid).
    rewrite Hoid in Hnin.
    assert (Hst : forall g0, walls g0 = kept ++ w :: rest ->
              store w_oid w' (walls g0) = kept ++ w' :: rest).
    { intros g0 H0. rewrite H0. apply store_app_here; assumption. }
    set (pts := if wall_scores px w then 1 else 0).
    assert (Hg1 : (if wall_scores px w then with_score (score g + 1) g else g)
                  = with_score (score g + pts) g).
    { unfold pts. destruct (wall_scores px w); [reflexivity|].
      rewrite Z.add_0_r. destruct g; reflexivity. }
    rewrite Hg1. cbn [walls with_score with_walls player score].
    rewrite (Hst g Hw). fold px pr.
    destruct (WallPair_collides w' pr) eqn:Ec; [reflexivity|].
    destruct (WallPair_off_screen w') eqn:Eo.
    + rewrite (list_remove_app_here w_oid kept w' w' rest Hnin eq_refl).
      cbn [bind]. rewrite (IH kept); [| reflexivity | exact Hnd'].
      cbn [walls with_score with_walls player score]. fold px pr.
      destruct (walls_scan px pr rest) as [[l n] hit].
      rewrite Z.add_assoc. destruct hit; reflexivity.
    + rewrite (IH (kept ++ [w']));
        [| cbn [walls with_walls]; rewrite <- app_assoc; reflexivity
         | apply (NoDup_oids_replace w_oid kept w' w rest);
           [symmetry; exact Hoid | exact Hnd] ].
      cbn [walls with_score with_walls player score]. fold px pr.
      destruct (walls_scan px pr rest) as [[l n] hit].
      rewrite Z.add_assoc, <- app_assoc. destruct hit; reflexivity.
Qed.

Section LoopEquations.
Variable sin : Q -> Q.

Lemma enemies_loop_scan (es : list Enemy) :
  forall (kept : list Enemy) (g : Game) (e : Env),
    enemies g = kept ++ es ->
    NoDup (map e_oid (kept ++ es)) ->
    enemies_loop sin es (g, e) =
    let '(l, hit) := enemies_scan sin (Player_rect (player g)) es in
    let g' := with_enemies (kept ++ l) g in
    if (hit : bool) then Ok (Game__game_over (g', e), true)
    else Ok ((g', e), false).
Proof.
  induction es as [|en rest IH]; intros kept g e Hw Hnd.
  - cbn [enemies_loop enemies_scan]. rewrite app_nil_r in *.
    rewrite <- Hw. destruct g; reflexivity.
  - cbn [enemies_loop enemies_scan].
    destruct (NoDup_oids_mid e_oid _ _ _ Hnd) as [Hnin Hnd'].
    set (pr := Player_rect (player g)).
    set (en' := Enemy_update sin en).
    assert (Hoid : e_oid en = e_oid en') by reflexivity.
    rewrite Hoid in Hnin.
    rewrite Hw, (store_app_here e_oid kept en' en rest Hnin Hoid).
    cbn [enemies with_enemies player]. fold pr.
    destruct (Enemy_collides en' pr) eqn:Ec; [reflexivity|].
    destruct (Enemy_off_screen en') eqn:Eo.
    + rewrite (list_remove_app_here e_oid kept en' en' rest Hnin eq_refl).
      cbn [bind]. rewrite (IH kept); [| reflexivity | exact Hnd'].
      cbn [enemies with_enemies player]. fold pr.
      destruct (enemies_scan sin pr rest) as [l hit].
      destruct hit; reflexivity.
    + rewrite (IH (kept ++ [en']));
        [| cbn [enemies with_enemies]; rewrite <- app_assoc; reflexivity
         | apply (NoDup_oids_replace e_oid kept en' en rest);
           [symmetry; exact Hoid | exact Hnd] ].
      cbn [enemies with_enemies player]. fold pr.
      destruct (enemies_scan sin pr rest) as [l hit].
      rewrite <- app_assoc. destruct hit; reflexivity.
Qed.

Lemma coins_loop_filter (coin_val : Z) (cs : list Coin) :
  forall (kept : list Coin) (g : Game),
    coins g = kept ++ cs ->
    NoDup (map c_oid (kept ++ cs)) ->
    coins_loop sin coin_val cs g =
    Ok (with_coins_collected
          (coins_collected g
           + coin_val
             * Z.of_nat
                 (length (filter (coin_picked sin (Player_rect (player g)))
                            cs)))
          (with_coins
             (kept ++ map (Coin_update sin)
                        (filter (coin_kept sin (Player_rect (player g))) cs))
             g)).
Proof.
  induction cs as [|c rest IH]; intros kept g Hw Hnd.
  - cbn [coins_loop filter map length]. rewrite app_nil_r in *.
    rewrite <- Hw. replace (coins_collected g + coin_val * Z.of_nat 0)
      with (coins_collected g) by lia.
    destruct g; reflexivity.
  - cbn [coins_loop filter].
    destruct (NoDup_oids_mid c_oid _ _ _ Hnd) as [Hnin Hnd'].
    set (pr := Player_rect (player g)).
    set (c' := Coin_update sin c).
    assert (Hoid : c_oid c = c_oid c') by reflexivity.
    rewrite Hoid in Hnin.
    rewrite Hw, (store_app_here c_oid kept c' c rest Hnin Hoid).
    cbn [coins with_coins player]. fold pr.
    unfold coin_picked at 1, coin_kept at 1. fold c'.
    destruct (Coin_collides c' pr) eqn:Ec; cbn [negb andb].
    + cbn [coins with_coins with_coins_collected player].
      rewrite (list_remove_app_here c_oid kept c' c' rest Hnin eq_refl).
      cbn [bind]. rewrite (IH kept); [| reflexivity | exact Hnd'].
      cbn [coins with_coins with_coins_collected player coins_collected
           length].
      fold pr. rewrite Nat2Z.inj_succ, Z.mul_succ_r.
      replace (coins_collected g + coin_val
               + coin_val * Z.of_nat (length (filter (coin_picked sin pr) rest)))
        with (coins_collected g
              + (coin_val * Z.of_nat (length (filter (coin_picked sin pr) rest))
                 + coin_val)) by lia.
      reflexivity.
    + destruct (Coin_off_screen c') eqn:Eo; cbn [negb].
      * rewrite (list_remove_app_here c_oid kept c' c' rest Hnin eq_refl).
        cbn [bind]. rewrite (IH kept); [| reflexivity | exact Hnd'].
        reflexivity.
      * rewrite (IH (kept ++ [c']));
          [| cbn [coins with_coins]; rewrite <- app_assoc; reflexivity
           | apply (NoDup_oids_replace c_oid kept c' c rest);
             [symmetry; exact Hoid | exact Hnd] ].
        cbn [coins with_coins player map]. fold pr c'.
        rewrite <- app_assoc. reflexivity.
Qed.

End LoopEquations.

(* ------------------------------------------------------------------ *)
(** ** What the loops keep *)

Section Thinned.
Context {A : Type}.
Variable oid : A -> nat.

Lemma thinned_refl (l : list A) : thinned oid l l.
Proof.
  induction l; [apply thinned_nil | apply thinned_keep; auto].
Qed.

Lemma thinned_In (l l' : list A) :
  thinned oid l l' ->
  forall a', In a' l' -> exists a, In a l /\ oid a = oid a'.
Proof.
  induction 1 as [|a l l' _ IH|a a0 l l' Hoid _ IH]; intros x Hin.
  - contradiction.
  - destruct (IH x Hin) as (y & Hy & E). exists y. split; [right|]; auto.
  - destruct Hin as [<-|Hin].
    + exists a. split; [left; reflexivity | symmetry; exact Hoid].
    + destruct (IH x Hin) as (y & Hy & E). exists y. split; [right|]; auto.
Qed.

Lemma thinned_oids_ok (n : nat) (l l' : list A) :
  thinned oid l l' ->
  forall kept, oids_ok oid n (kept ++ l) -> oids_ok oid n (kept ++ l').
Proof.
  induction 1 as [|a l l' _ IH|a a0 l l' Hoid _ IH]; intros kept [Hnd Hall].
  - split; assumption.
  - apply IH. split.
    + apply (NoDup_oids_mid oid kept a l Hnd).
    + apply Forall_app in Hall. destruct Hall as [Hk Hl].
      apply Forall_app. split; [exact Hk|]. inversion Hl; assumption.
  - replace (kept ++ a0 :: l') with ((kept ++ [a0]) ++ l')
      by (rewrite <- app_assoc; reflexivity).
    apply IH. split.
    + apply (NoDup_oids_replace oid kept a0 a l Hoid Hnd).
    + apply Forall_app in Hall. destruct Hall as [Hk Hl].
      rewrite <- app_assoc. apply Forall_app. split; [exact Hk|].
      inversion Hl; subst. constructor; [rewrite Hoid; assumption | assumption].
Qed.

Lemma thinned_map_filter (f : A -> A) (keep : A -> bool) (l : list A) :
  (forall a, oid (f a) = oid a) ->
  thinned oid l (map f (filter keep l)).
Proof.
  intro Hf. induction l as [|a l IH]; simpl.
  - constructor.
  - destruct (keep a); simpl;
      [apply thinned_keep; auto | apply thinned_drop; auto].
Qed.

Lemma oids_ok_nil (n : nat) : oids_ok oid n [].
Proof. split; constructor. Qed.

Lemma oids_ok_weaken (n m : nat) (l : list A) :
  (n <= m)%nat -> oids_ok oid n l -> oids_ok oid m l.
Proof.
  intros Hnm [Hnd Hall]. split; [exact Hnd|].
  eapply Forall_impl; [|exact Hall]. simpl. intros a Ha. lia.
Qed.

Lemma oids_ok_fresh (n : nat) (l : list A) (a : A) :
  oid a = n -> oids_ok oid n l -> oids_ok oid (S n) (l ++ [a]).
Proof.
  intros Ha [Hnd Hall]. split.
  - rewrite map_app. simpl. apply NoDup_app; [exact Hnd | |].
    + constructor; [intros []|constructor].
    + intros x Hx [Hin|[]]. subst x.
      apply in_map_iff in Hx. destruct Hx as (b & Hb & Hin').
      rewrite Forall_forall in Hall. specialize (Hall b Hin'). lia.
  - apply Forall_app. split.
    + eapply Forall_impl; [|exact Hall]. simpl. intros b Hb. lia.
    + constructor; [lia|constructor].
Qed.

End Thinned.

Lemma walls_scan_thinned (px : Z) (pr : Rect) (ws : list WallPair) :
  thinned w_oid ws (fst (fst (walls_scan px pr ws))).
Proof.
  induction ws as [|w rest IH]; cbn [walls_scan].
  - constructor.
  - destruct (WallPair_collides (wall_passed px w) pr).
    + cbn [fst]. apply thinned_keep; [apply wall_passed_oid | apply thinned_refl].
    + destruct (walls_scan px pr rest) as [[l n] hit]. cbn [fst] in *.
      destruct (WallPair_off_screen (wall_passed px w)).
      * apply thinned_drop. exact IH.
      * apply thinned_keep; [apply wall_passed_oid | exact IH].
Qed.

Lemma walls_scan_hit (px : Z) (pr : Rect) (ws : list WallPair) :
  let '(l, n, hit) := walls_scan px pr ws in
  if (hit : bool)
  then exists w, In w l /\ WallPair_collides w pr = true
  else forall w, In w l -> WallPair_collides w pr = false.
Proof.
  induction ws as [|w rest IH]; cbn [walls_scan].
  - intros w [].
  - destruct (WallPair_collides (wall_passed px w) pr) eqn:Ec.
    + exists (wall_passed px w). split; [left; reflexivity | exact Ec].
    + destruct (walls_scan px pr rest) as [[l n] hit].
      destruct hit.
      * destruct IH as (w0 & Hin & Hc). exists w0. split; [|exact Hc].
        destruct (WallPair_off_screen _); [exact Hin | right; exact Hin].
      * intros w0 Hin. destruct (WallPair_off_screen _).
        -- apply IH, Hin.
        -- destruct Hin as [<-|Hin]; [exact Ec | apply IH, Hin].
Qed.

Lemma walls_scan_points (px : Z) (pr : Rect) (ws : list WallPair) :
  0 <= snd (fst (walls_scan px pr ws))
    <= Z.of_nat (length (filter (fun w => negb (w_scored w)) ws)).
Proof.
  induction ws as [|w rest IH]; cbn [walls_scan filter].
  - simpl. lia.
  - assert (Hp : 0 <= (if wall_scores px w then 1 else 0)
                 <= (if negb (w_scored w) then 1 else 0)).
    { unfold wall_scores. destruct (w_scored w); simpl; [lia|].
      destruct (Qltb _ _); lia. }
    destruct (WallPair_collides (wall_passed px w) pr).
    + cbn [fst snd]. destruct (negb (w_scored w)); cbn [length]; lia.
    + destruct (walls_scan px pr rest) as [[l n] hit]. cbn [fst snd] in *.
      destruct (negb (w_scored w)); cbn [length]; lia.
Qed.

(** A wall loop that runs to its end leaves no wall that is off screen. *)
Lemma walls_scan_clean (px : Z) (pr : Rect) (ws : list WallPair) :
  snd (walls_scan px pr ws) = false ->
  forall w, In w (fst (fst (walls_scan px pr ws))) ->
            WallPair_off_screen w = false.
Proof.
  induction ws as [|w rest IH]; cbn [walls_scan].
  - intros _ w [].
  - destruct (WallPair_collides (wall_passed px w) pr); [discriminate|].
    destruct (walls_scan px pr rest) as [[l n] hit]. cbn [fst snd] in *.
    intros Hh w0 Hin.
    destruct (WallPair_off_screen (wall_passed px w)) eqn:Eo.
    + apply IH; assumption.
    + destruct Hin as [<- | Hin]; [exact Eo | apply IH; assumption].
Qed.

Section ScanFacts.
Variable sin : Q -> Q.

Lemma enemies_scan_clean (pr : Rect) (es : list Enemy) :
  snd (enemies_scan sin pr es) = false ->
  forall en, In en (fst (enemies_scan sin pr es)) ->
             Enemy_off_screen en = false.
Proof.
  induction es as [|en rest IH]; cbn [enemies_scan].
  - intros _ en [].
  - destruct (Enemy_collides (Enemy_update sin en) pr); [discriminate|].
    destruct (enemies_scan sin pr rest) as [l hit]. cbn [fst snd] in *.
    intros Hh en0 Hin.
    destruct (Enemy_off_screen (Enemy_update sin en)) eqn:Eo.
    + apply IH; assumption.
    + destruct Hin as [<- | Hin]; [exact Eo | apply IH; assumption].
Qed.

Lemma enemies_scan_thinned (pr : Rect) (es : list Enemy) :
  thinned e_oid es (fst (enemies_scan sin pr es)).
Proof.
  induction es as [|en rest IH]; cbn [enemies_scan].
  - constructor.
  - destruct (Enemy_collides (Enemy_update sin en) pr).
    + cbn [fst]. apply thinned_keep; [reflexivity | apply thinned_refl].
    + destruct (enemies_scan sin pr rest) as [l hit]. cbn [fst] in *.
      destruct (Enemy_off_screen (Enemy_update sin en)).
      * apply thinned_drop. exact IH.
      * apply thinned_keep; [reflexivity | exact IH].
Qed.

Lemma enemies_scan_hit (pr : Rect) (es : list Enemy) :
  let '(l, hit) := enemies_scan sin pr es in
  if (hit : bool)
  then exists en, In en l /\ Enemy_collides en pr = true
  else forall en, In en l -> Enemy_collides en pr = false.
Proof.
  induction es as [|en rest IH]; cbn [enemies_scan].
  - intros en [].
  - destruct (Enemy_collides (Enemy_update sin en) pr) eqn:Ec.
    + exists (Enemy_update sin en). split; [left; reflexivity | exact Ec].
    + destruct (enemies_scan sin pr rest) as [l hit].
      destruct hit.
      * destruct IH as (w0 & Hin & Hc). exists w0. split; [|exact Hc].
        destruct (Enemy_off_screen _); [exact Hin | right; exact Hin].
      * intros w0 Hin. destruct (Enemy_off_screen _).
        -- apply IH, Hin.
        -- destruct Hin as [<-|Hin]; [exact Ec | apply IH, Hin].
Qed.

Lemma coins_kept_no_overlap (pr : Rect) (cs : list Coin) (c : Coin) :
  In c (map (Coin_update sin) (filter (coin_kept sin pr) cs)) ->
  Coin_collides c pr = false /\ Coin_off_screen c = false.
Proof.
  intro Hin. apply in_map_iff in Hin. destruct Hin as (c0 & <- & Hin).
  apply filter_In in Hin. destruct Hin as [_ Hk].
  unfold coin_kept in Hk. apply andb_true_iff in Hk.
  destruct Hk as [H1 H2]. apply negb_true_iff in H1, H2. auto.
Qed.

End ScanFacts.

(* ------------------------------------------------------------------ *)
(** ** Spawning and allocation *)

Lemma random_env (e : Env) :
  next_oid (snd (random e)) = next_oid e /\
  hs_file (snd (random e)) = hs_file e.
Proof. unfold random, draw. simpl. auto. Qed.

Lemma uniform_env (a b : Q) (e : Env) :
  next_oid (snd (uniform a b e)) = next_oid e /\
  hs_file (snd (uniform a b e)) = hs_file e.
Proof. unfold uniform, random, draw. simpl. auto. Qed.

Lemma Enemy_init_Ok (speed : Q) (e : Env) (en : Enemy) (e' : Env) :
  Enemy_init speed e = Ok (en, e') ->
  e_oid en = next_oid e /\ next_oid e' = S (next_oid e) /\
  hs_file e' = hs_file e.
Proof.
  unfold Enemy_init, alloc. intro H.
  apply bind_Ok in H. destruct H as ([dx e1] & H1 & H).
  apply bind_Ok in H. destruct H as ([by_ e2] & H2 & H).
  destruct (uniform 0 (2 * math_pi) e2) as [wt e3] eqn:H3.
  apply bind_Ok in H. destruct H as ([amp e4] & H4 & H).
  destruct (uniform (25 # 1000) (55 # 1000) e4) as [ws e5] eqn:H5.
  injection H as <- <-. cbn [e_oid].
  apply randint_env in H1, H2, H4. cbn [next_oid hs_file] in H1.
  pose proof (uniform_env 0 (2 * math_pi) e2) as U3. rewrite H3 in U3.
  pose proof (uniform_env (25 # 1000) (55 # 1000) e4) as U5.
  rewrite H5 in U5. cbn [snd] in U3, U5.
  destruct H1, H2, H4, U3, U5. split; [reflexivity|]. split; congruence.
Qed.

Lemma Coin_init_spec (x : Q) (y : Z) (speed : Q) (e : Env) :
  c_oid (fst (Coin_init x y speed e)) = next_oid e /\
  next_oid (snd (Coin_init x y speed e)) = S (next_oid e) /\
  hs_file (snd (Coin_init x y speed e)) = hs_file e.
Proof. unfold Coin_init, alloc, uniform, random, draw. simpl. auto. Qed.

Lemma Game__game_over_spec (g : Game) (e : Env) :
  exists hs e',
    Game__game_over (g, e)
    = (with_high_score hs
         (with_player (Player_set_alive false (player g))
            (with_state GAME_OVER g)), e') /\
    next_oid e' = next_oid e.
Proof.
  unfold Game__game_over, save_highscore.
  cbn [score with_player with_state].
  destruct (score g >? load_highscore e).
  - eexists _, _. split; reflexivity.
  - exists (high_score g), e. split; [|reflexivity].
    destruct g; reflexivity.
Qed.

Lemma load_highscore_ext (e1 e2 : Env) :
  hs_file e1 = hs_file e2 -> load_highscore e1 = load_highscore e2.
Proof. unfold load_highscore. intros ->. reflexivity. Qed.

(** [_game_over] keeps the best score in memory equal to the stored one,
    and at least the score of the session. *)
Lemma Game__game_over_high_score (g : Game) (e : Env) :
  load_highscore e = high_score g ->
  load_highscore (snd (Game__game_over (g, e)))
  = high_score (fst (Game__game_over (g, e))) /\
  score (fst (Game__game_over (g, e)))
  <= high_score (fst (Game__game_over (g, e))).
Proof.
  intro Hs. unfold Game__game_over, save_highscore.
  cbn [score with_player with_state].
  destruct (score g >? load_highscore e) eqn:E; cbn [fst snd].
  - split; [reflexivity | cbn; lia].
  - rewrite Z.gtb_ltb in E. apply Z.ltb_ge in E.
    split; [exact Hs | cbn; lia].
Qed.

Lemma wrap_bg_bg_x (g : Game) : bg_x (wrap_bg g) = wrapped (bg_x g).
Proof. unfold wrap_bg, wrapped. destruct (Qle_bool _ _); reflexivity. Qed.

Section Spawning.
Variable sin : Q -> Q.

Lemma wrap_bg_eq (g : Game) : exists b, wrap_bg g = with_bg_x b g.
Proof.
  unfold wrap_bg. destruct (Qle_bool _ _).
  - eexists. reflexivity.
  - exists (bg_x g). destruct g; reflexivity.
Qed.

Lemma spawn_wall_Ok (spc gap : Z) (spd : Q) (g : Game) (e : Env)
    (g' : Game) (e' : Env) (b : bool) :
  spawn_wall spc gap spd (g, e) = Ok (g', e', b) ->
  (b = false /\ g' = g /\ e' = e) \/
  (b = true /\
   exists w, WallPair_init (SCREEN_WIDTH + 40) gap spd None e = Ok (w, e') /\
             g' = with_walls (walls g ++ [w]) g).
Proof.
  unfold spawn_wall. intro H.
  apply bind_Ok in H. destruct H as (need & _ & H).
  destruct need.
  - apply bind_Ok in H. destruct H as ([w e1] & Hw & H).
    injection H as <- <- <-. right. split; [reflexivity|].
    exists w. split; [exact Hw | reflexivity].
  - injection H as <- <- <-. left. auto.
Qed.

Lemma spawn_enemy_Ok (spd : Q) (freq : Z) (g : Game) (e : Env)
    (g' : Game) (e' : Env) :
  spawn_enemy spd freq (g, e) = Ok (g', e') ->
  (g' = with_enemy_timer (enemy_timer g + 1) g /\ e' = e) \/
  (exists en,
     Enemy_init spd e = Ok (en, e') /\
     g' = with_enemy_timer 0
            (with_enemies (enemies g ++ [en])
               (with_enemy_timer (enemy_timer g + 1) g))).
Proof.
  unfold spawn_enemy. cbn [enemy_timer with_enemy_timer].
  destruct (enemy_timer g + 1 >=? freq); intro H.
  - apply bind_Ok in H. destruct H as ([en e1] & Hen & H).
    injection H as <- <-. right. exists en. split; [exact Hen | reflexivity].
  - injection H as <- <-. left. auto.
Qed.

Lemma spawn_coin_Ok (lv : Level) (spc : Z) (spd : Q) (g : Game) (e : Env)
    (g' : Game) (e' : Env) :
  spawn_coin lv spc spd (g, e) = Ok (g', e') ->
  hs_file e' = hs_file e /\
  ((g' = g /\ next_oid e' = next_oid e) \/
   (exists c, g' = with_coins (coins g ++ [c]) g /\
              c_oid c = next_oid e /\ next_oid e' = S (next_oid e))).
Proof.
  unfold spawn_coin.
  pose proof (random_env e) as [Rn Rh].
  destruct (random e) as [roll e1]. cbn [snd] in Rn, Rh.
  destruct (Qltb roll _ && _); intro H.
  - apply bind_Ok in H. destruct H as (latest & _ & H).
    apply bind_Ok in H. destruct H as ([jx e2] & Hx & H).
    apply bind_Ok in H. destruct H as ([jy e3] & Hy & H).
    apply randint_env in Hx, Hy. destruct Hx as [Xn Xh], Hy as [Yn Yh].
    match type of H with
    | (let (c, e) := Coin_init ?x ?y ?s ?e0 in _) = _ =>
        pose proof (Coin_init_spec x y s e0) as (Co & Cn & Ch);
        destruct (Coin_init x y s e0) as [c e4]
    end.
    cbn [fst snd] in Co, Cn, Ch. injection H as <- <-.
    split; [congruence|]. right. exists c.
    split; [reflexivity|]. split; congruence.
  - injection H as <- <-. split; [exact Rh|]. left. auto.
Qed.

End Spawning.

(* ------------------------------------------------------------------ *)
(** ** The entity phases of a PLAYING frame *)

Ltac game_simpl :=
  cbn [fst snd bg_x levels high_score btn_start btn_restart state player
       walls enemies coins score coins_collected grace_frames enemy_timer
       level_idx with_bg_x with_high_score with_btn_start with_btn_restart
       with_state with_player with_walls with_enemies with_coins with_score
       with_coins_collected with_grace_frames with_enemy_timer
       with_level_idx app] in *.

Lemma with_walls_same (g : Game) : with_walls (walls g) g = g.
Proof. destruct g; reflexivity. Qed.

Lemma with_coins_same (g : Game) : with_coins (coins g) g = g.
Proof. destruct g; reflexivity. Qed.

Section Phases.
Variable sin : Q -> Q.

Lemma spawn_wall_wf (spc gap : Z) (spd : Q) (g : Game) (e : Env)
    (g' : Game) (e' : Env) (b : bool) :
  oids_ok w_oid (next_oid e) (walls g) ->
  spawn_wall spc gap spd (g, e) = Ok (g', e', b) ->
  exists wl,
    g' = with_walls wl g /\ oids_ok w_oid (next_oid e') wl /\
    (next_oid e <= next_oid e')%nat /\ hs_file e' = hs_file e.
Proof.
  intros Hok H. apply spawn_wall_Ok in H.
  destruct H as [(_ & -> & ->) | (_ & w & Hw & ->)].
  - exists (walls g). rewrite with_walls_same. auto.
  - apply WallPair_init_generated in Hw.
    destruct Hw as (_ & Ho & _ & _ & _ & _ & _ & _ & Hn & Hf).
    exists (walls g ++ [w]). split; [reflexivity|].
    rewrite Hn. split; [apply oids_ok_fresh; assumption|].
    split; [lia | exact Hf].
Qed.

Lemma spawn_enemy_wf (spd : Q) (freq : Z) (g : Game) (e : Env)
    (g' : Game) (e' : Env) :
  oids_ok e_oid (next_oid e) (enemies g) ->
  spawn_enemy spd freq (g, e) = Ok (g', e') ->
  exists el t,
    g' = with_enemy_timer t (with_enemies el g) /\
    oids_ok e_oid (next_oid e') el /\
    (next_oid e <= next_oid e')%nat /\ hs_file e' = hs_file e /\
    (t = enemy_timer g + 1 \/ t = 0).
Proof.
  intros Hok H. apply spawn_enemy_Ok in H.
  destruct H as [(-> & ->) | (en & Hen & ->)].
  - exists (enemies g), (enemy_timer g + 1). split; [|auto].
    destruct g; reflexivity.
  - apply Enemy_init_Ok in Hen. destruct Hen as (Ho & Hn & Hf).
    exists (enemies g ++ [en]), 0. split; [reflexivity|].
    rewrite Hn. split; [apply oids_ok_fresh; assumption|].
    split; [lia|]. split; [exact Hf | right; reflexivity].
Qed.

Lemma spawn_coin_wf (lv : Level) (spc : Z) (spd : Q) (g : Game) (e : Env)
    (g' : Game) (e' : Env) :
  oids_ok c_oid (next_oid e) (coins g) ->
  spawn_coin lv spc spd (g, e) = Ok (g', e') ->
  exists cl,
    g' = with_coins cl g /\ oids_ok c_oid (next_oid e') cl /\
    (cl = coins g \/
     exists c, cl = coins g ++ [c] /\ c_oid c = next_oid e) /\
    (next_oid e <= next_oid e')%nat /\ hs_file e' = hs_file e.
Proof.
  intros Hok H. apply spawn_coin_Ok in H.
  destruct H as (Hf & [(-> & Hn) | (c & -> & Ho & Hn)]).
  - exists (coins g). rewrite with_coins_same, Hn.
    split; [reflexivity|]. split; [exact Hok|]. split; [left; reflexivity|].
    split; [lia | exact Hf].
  - exists (coins g ++ [c]). split; [reflexivity|].
    rewrite Hn. split; [apply oids_ok_fresh; assumption|].
    split; [right; exists c; auto|]. split; [lia | exact Hf].
Qed.

(** What steps (3) to (5) of a PLAYING frame do to a well-formed session
    whose player survived the physics step. *)
Lemma playing_entities_spec (lv : Level) (g : Game) (e : Env)
    (g' : Game) (e' : Env) :
  wf (g, e) -> state g = PLAYING ->
  playing_entities sin lv (g, e) = Ok (g', e') ->
  bg_x g' = wrapped (bg_x g - get (wall_speed lv) 2 * (25 # 100))%Q /\
  (load_highscore e = high_score g ->
   load_highscore e' = high_score g' /\
   (state g' = GAME_OVER -> score g' <= high_score g')) /\
  (enemy_timer g' = enemy_timer g \/ enemy_timer g' = enemy_timer g + 1 \/
   enemy_timer g' = 0) /\
  wf (g', e') /\ (next_oid e <= next_oid e')%nat /\
  levels g' = levels g /\ motion (player g') = motion (player g) /\
  grace_frames g' = grace_frames g /\ level_idx g' = level_idx g /\
  score g <= score g' /\
  (forall c', In c' (coins g') ->
     (exists c, In c (coins g) /\ c_oid c = c_oid c') \/
     (next_oid e <= c_oid c')%nat) /\
  ((state g' = GAME_OVER /\ p_alive (player g') = false /\
    coins g' = coins g /\ coins_collected g' = coins_collected g /\
    ((exists w, In w (walls g') /\
                WallPair_collides w (Player_rect (player g)) = true) \/
     (exists en, In en (enemies g') /\
                 Enemy_collides en (Player_rect (player g)) = true)))
   \/
   (state g' = PLAYING /\ player g' = player g /\
    hs_file e' = hs_file e /\ high_score g' = high_score g /\
    (forall w, In w (walls g') ->
               WallPair_collides w (Player_rect (player g)) = false) /\
    (forall en, In en (enemies g') ->
                Enemy_collides en (Player_rect (player g)) = false) /\
    (forall w, In w (walls g') -> WallPair_off_screen w = false) /\
    (forall en, In en (enemies g') -> Enemy_off_screen en = false) /\
    exists cs,
      (cs = coins g \/
       exists c, cs = coins g ++ [c] /\ (next_oid e <= c_oid c)%nat) /\
      oids_ok c_oid (next_oid e') cs /\
      coins g'
      = map (Coin_update sin)
          (filter (coin_kept sin (Player_rect (player g))) cs) /\
      coins_collected g'
      = coins_collected g
        + get (coin_value lv) 1
          * Z.of_nat
              (length (filter (coin_picked sin (Player_rect (player g)))
                         cs)))).
Proof.
  intros (Hww & Hwe & Hwc) Hst H. cbn [fst snd] in Hww, Hwe, Hwc.
  unfold playing_entities in H.
  pose proof (wrap_bg_bg_x
                (with_bg_x (bg_x g - get (wall_speed lv) 2 * (25 # 100))%Q g))
    as Hbg.
  destruct (wrap_bg_eq
              (with_bg_x (bg_x g - get (wall_speed lv) 2 * (25 # 100))%Q g))
    as [b Hb].
  rewrite Hb in H, Hbg. cbn [bg_x with_bg_x] in Hbg. clear Hb.
  apply bind_Ok in H. destruct H as ([[g2 e2] spawned] & Hsw & H).
  apply spawn_wall_wf in Hsw; [|exact Hww].
  destruct Hsw as (wl & -> & Hwl & Hn2 & Hf2).
  cbn [walls with_walls with_bg_x] in H.
  apply bind_Ok in H. destruct H as ([s1 over1] & Hloop & H).
  rewrite (walls_loop_scan wl []) in Hloop;
    [| reflexivity | exact (proj1 Hwl)].
  cbn [player with_walls with_bg_x score app] in Hloop.
  pose proof (walls_scan_thinned (p_x (player g)) (Player_rect (player g)) wl)
    as Hthin.
  pose proof (walls_scan_hit (p_x (player g)) (Player_rect (player g)) wl)
    as Hhit.
  pose proof (walls_scan_points (p_x (player g)) (Player_rect (player g)) wl)
    as Hpts.
  pose proof (walls_scan_clean (p_x (player g)) (Player_rect (player g)) wl)
    as Hclean.
  destruct (walls_scan (p_x (player g)) (Player_rect (player g)) wl)
    as [[l n] hit].
  cbn [fst snd] in Hthin, Hpts, Hclean.
  pose proof (thinned_oids_ok w_oid (next_oid e2) wl l Hthin [] Hwl) as Hl.
  cbn [app] in Hl.
  destruct hit.
  { (* a wall was hit *)
    destruct Hhit as (w & Hin & Hc).
    match type of Hloop with
    | Ok (Game__game_over (?gx, ?ex), _) = _ =>
        pose proof (Game__game_over_high_score gx ex) as Hhs;
        destruct (Game__game_over_spec gx ex) as (hs & e3 & Hgo & Hn3);
        rewrite Hgo in Hloop, Hhs
    end.
    injection Hloop as <- <-. injection H as <- <-.
    unfold wf. game_simpl. rewrite Hn3.
    split; [exact Hbg|].
    split.
    { intro Hh. rewrite <- (load_highscore_ext _ _ Hf2) in Hh.
      destruct (Hhs Hh) as [Hh1 Hh2]. split; [exact Hh1 | intros _; lia]. }
    split; [left; reflexivity|].
    split.
    { split; [exact Hl|]. split; eapply oids_ok_weaken; eauto. }
    split; [exact Hn2|]. repeat (split; [reflexivity || lia|]).
    split; [intros c' Hc'; left; exists c'; auto|].
    left. repeat (split; [reflexivity|]).
    left. exists w. auto. }
  injection Hloop as <- <-.
  apply bind_Ok in H. destruct H as ([g4 e4] & Hse & H).
  apply spawn_enemy_wf in Hse;
    [| game_simpl; eapply oids_ok_weaken; eauto].
  destruct Hse as (el & t & -> & Hel & Hn4 & Hf4 & Ht).
  apply bind_Ok in H. destruct H as ([s2 over2] & Hloop2 & H).
  game_simpl.
  rewrite (enemies_loop_scan sin el []) in Hloop2;
    [| reflexivity | exact (proj1 Hel)].
  game_simpl.
  pose proof (enemies_scan_thinned sin (Player_rect (player g)) el) as Hthin2.
  pose proof (enemies_scan_hit sin (Player_rect (player g)) el) as Hhit2.
  pose proof (enemies_scan_clean sin (Player_rect (player g)) el) as Hclean2.
  destruct (enemies_scan sin (Player_rect (player g)) el) as [l2 hit2].
  cbn [fst snd] in Hthin2, Hclean2.
  pose proof (thinned_oids_ok e_oid (next_oid e4) el l2 Hthin2 [] Hel) as Hl2.
  cbn [app] in Hl2.
  destruct hit2.
  { (* an enemy was hit *)
    destruct Hhit2 as (en & Hin & Hc).
    match type of Hloop2 with
    | Ok (Game__game_over (?gx, ?ex), _) = _ =>
        pose proof (Game__game_over_high_score gx ex) as Hhs;
        destruct (Game__game_over_spec gx ex) as (hs & e5 & Hgo & Hn5);
        rewrite Hgo in Hloop2, Hhs
    end.
    injection Hloop2 as <- <-. injection H as <- <-.
    unfold wf. game_simpl. rewrite Hn5.
    split; [exact Hbg|].
    split.
    { intro Hh. rewrite <- (load_highscore_ext _ _ Hf2) in Hh.
      rewrite <- (load_highscore_ext _ _ Hf4) in Hh.
      destruct (Hhs Hh) as [Hh1 Hh2]. split; [exact Hh1 | intros _; lia]. }
    split; [right; destruct Ht as [-> | ->]; [left | right]; reflexivity|].
    split.
    { split; [eapply oids_ok_weaken; eauto|]. split; [exact Hl2|].
      eapply oids_ok_weaken; [|exact Hwc]. lia. }
    split; [lia|]. repeat (split; [reflexivity || lia|]).
    split; [intros c' Hc'; left; exists c'; auto|].
    left. repeat (split; [reflexivity|]).
    right. exists en. auto. }
  injection Hloop2 as <- <-.
  apply bind_Ok in H. destruct H as ([g6 e6] & Hsc & H).
  assert (Hcoin : exists cl,
            g6 = with_coins cl
                   (with_enemies l2
                      (with_enemy_timer t
                         (with_enemies el
                            (with_score (score g + n)
                               (with_walls l
                                  (with_walls wl
                                     (with_bg_x b
                                        (with_bg_x
                                           (bg_x g
                                            - get (wall_speed lv) 2 * (25 # 100))%Q
                                           g)))))))) /\
            oids_ok c_oid (next_oid e6) cl /\
            (cl = coins g \/
             exists c, cl = coins g ++ [c] /\ c_oid c = next_oid e4) /\
            (next_oid e4 <= next_oid e6)%nat /\ hs_file e6 = hs_file e4).
  { destruct spawned.
    - apply spawn_coin_wf in Hsc;
        [| game_simpl; eapply oids_ok_weaken; [|exact Hwc]; lia].
      game_simpl. exact Hsc.
    - injection Hsc as <- <-. exists (coins g).
      split;
        [match goal with
         | |- _ = with_coins _ ?y => exact (eq_sym (with_coins_same y))
         end|].
      split; [eapply oids_ok_weaken; [|exact Hwc]; lia|].
      split; [left; reflexivity|]. split; [lia | reflexivity]. }
  clear Hsc. destruct Hcoin as (cl & -> & Hcl & Hcs & Hn6 & Hf6).
  apply bind_Ok in H. destruct H as (g7 & Hloop3 & H).
  injection H as <- <-. game_simpl.
  rewrite (coins_loop_filter sin _ cl []) in Hloop3;
    [| reflexivity | exact (proj1 Hcl)].
  injection Hloop3 as <-.
  unfold wf. game_simpl.
  specialize (Hclean eq_refl). specialize (Hclean2 eq_refl).
  split; [exact Hbg|].
  split.
  { intro Hh. split; [|intro Hx; congruence].
    rewrite (load_highscore_ext _ _ Hf6), (load_highscore_ext _ _ Hf4),
      (load_highscore_ext _ _ Hf2). exact Hh. }
  split; [right; destruct Ht as [-> | ->]; [left | right]; reflexivity|].
  assert (Hthin3 : thinned c_oid cl
             (map (Coin_update sin)
                (filter (coin_kept sin (Player_rect (player g))) cl)))
    by (apply thinned_map_filter; reflexivity).
  split.
  { split; [eapply oids_ok_weaken; [|exact Hl]; lia|].
    split; [eapply oids_ok_weaken; [|exact Hl2]; lia|].
    exact (thinned_oids_ok c_oid (next_oid e6) cl _ Hthin3 [] Hcl). }
  split; [lia|]. repeat (split; [reflexivity || lia|]).
  split.
  { intros c' Hc'.
    destruct (thinned_In c_oid _ _ Hthin3 c' Hc') as (c0 & Hin0 & Ho).
    destruct Hcs as [-> | (c & -> & Hoc)].
    - left. exists c0. auto.
    - apply in_app_or in Hin0. destruct Hin0 as [Hin0 | [<- | []]].
      + left. exists c0. auto.
      + right. rewrite <- Ho, Hoc. lia. }
  right. repeat (split; [reflexivity || congruence || assumption|]).
  exists cl. split; [|split; [exact Hcl | split; reflexivity]].
  destruct Hcs as [-> | (c & -> & Hoc)]; [left; reflexivity|].
  right. exists c. split; [reflexivity|]. rewrite Hoc. lia.
Qed.
End Phases.

(* ------------------------------------------------------------------ *)
(** ** The PLAYING frame *)

Lemma Game__level_Ok (g : Game) (lv : Level) (g1 : Game) :
  Game__level g = Ok (lv, g1) ->
  g1 = with_level_idx (level_index (score g) (levels g)) g.
Proof.
  unfold Game__level, level_index.
  destruct (level_scan (score g) 0 (levels g)) as [[i l]|]; intro H.
  - injection H as _ <-. reflexivity.
  - apply bind_Ok in H. destruct H as (l & _ & H). injection H as _ <-.
    reflexivity.
Qed.

Lemma playing_physics_Ok (g : Game) (lv : Level) (g1 : Game) :
  playing_physics g = Ok (lv, g1) ->
  Game__level g = Ok (lv, with_level_idx (level_index (score g) (levels g)) g)
  /\
  g1 = with_player (physics_player lv g)
         (with_grace_frames
            (if grace_frames g >? 0 then grace_frames g - 1
             else grace_frames g)
            (with_level_idx (level_index (score g) (levels g)) g)).
Proof.
  unfold playing_physics. intro H.
  apply bind_Ok in H. destruct H as ([lv0 g0] & Hl & H).
  pose proof (Game__level_Ok _ _ _ Hl) as ->. game_simpl.
  injection H as <- <-. split; [exact Hl|]. unfold physics_player.
  destruct (grace_frames g >? 0); [reflexivity|]. destruct g; reflexivity.
Qed.

Section PlayingFrame.
Variable sin : Q -> Q.

Lemma update_playing_spec (g : Game) (e : Env) (g' : Game) (e' : Env) :
  wf (g, e) -> state g = PLAYING ->
  update_playing sin (g, e) = Ok (g', e') ->
  exists lv,
    Game__level g
    = Ok (lv, with_level_idx (level_index (score g) (levels g)) g) /\
    (bg_x g' = bg_x g \/
     bg_x g' = wrapped (bg_x g - get (wall_speed lv) 2 * (25 # 100))%Q) /\
    (load_highscore e = high_score g ->
     load_highscore e' = high_score g' /\
     (state g' = GAME_OVER -> score g' <= high_score g')) /\
    (enemy_timer g' = enemy_timer g \/ enemy_timer g' = enemy_timer g + 1 \/
     enemy_timer g' = 0) /\
    level_idx g' = level_index (score g) (levels g) /\
    wf (g', e') /\ (next_oid e <= next_oid e')%nat /\
    levels g' = levels g /\
    motion (player g') = motion (physics_player lv g) /\
    grace_frames g'
    = (if grace_frames g >? 0 then grace_frames g - 1 else grace_frames g) /\
    score g <= score g' /\
    (forall c', In c' (coins g') ->
       (exists c, In c (coins g) /\ c_oid c = c_oid c') \/
       (next_oid e <= c_oid c')%nat) /\
    ((state g' = GAME_OVER /\ p_alive (player g') = false /\
      coins g' = coins g /\ coins_collected g' = coins_collected g /\
      (p_alive (physics_player lv g) = false \/
       (exists w, In w (walls g') /\
                  WallPair_collides w (Player_rect (player g')) = true) \/
       (exists en, In en (enemies g') /\
                   Enemy_collides en (Player_rect (player g')) = true)))
     \/
     (state g' = PLAYING /\ player g' = physics_player lv g /\
      p_alive (physics_player lv g) = true /\
      hs_file e' = hs_file e /\ high_score g' = high_score g /\
      (forall w, In w (walls g') ->
                 WallPair_collides w (Player_rect (player g')) = false) /\
      (forall en, In en (enemies g') ->
                  Enemy_collides en (Player_rect (player g')) = false) /\
      (forall w, In w (walls g') -> WallPair_off_screen w = false) /\
      (forall en, In en (enemies g') -> Enemy_off_screen en = false) /\
      exists cs,
        (cs = coins g \/
         exists c, cs = coins g ++ [c] /\ (next_oid e <= c_oid c)%nat) /\
        oids_ok c_oid (next_oid e') cs /\
        coins g'
        = map (Coin_update sin)
            (filter (coin_kept sin (Player_rect (player g'))) cs) /\
        coins_collected g'
        = coins_collected g
          + get (coin_value lv) 1
            * Z.of_nat
                (length (filter (coin_picked sin (Player_rect (player g')))
                           cs)))).
Proof.
  intros Hwf Hst H. unfold update_playing in H.
  apply bind_Ok in H. destruct H as ([lv g1] & Hp & H).
  apply playing_physics_Ok in Hp. destruct Hp as [Hl ->].
  exists lv. split; [exact Hl|]. game_simpl.
  destruct (p_alive (physics_player lv g)) eqn:Ea; cbn [negb] in H.
  - (* the player survived the physics step *)
    apply playing_entities_spec in H; [| exact Hwf | exact Hst].
    game_simpl.
    destruct H as (Hbg & Hhs & Htm & Hwf' & Hn & Hlv & Hm & Hgr & Hli & Hsc
                   & Hprov & Hcases).
    split; [right; exact Hbg|]. split; [exact Hhs|]. split; [exact Htm|].
    split; [exact Hli|].
    split; [exact Hwf'|]. split; [exact Hn|]. split; [exact Hlv|].
    split; [exact Hm|]. split; [exact Hgr|]. split; [exact Hsc|].
    split; [exact Hprov|].
    rewrite (Player_rect_motion _ _ Hm).
    destruct Hcases as [(Ho & Hd & Hc & Hcc & Hhit) | (Ho & Hpl & Hrest)].
    + left. repeat (split; [assumption|]). right. exact Hhit.
    + right. split; [exact Ho|]. split; [exact Hpl|]. split; [reflexivity|].
      exact Hrest.
  - (* the player fell past the floor *)
    match type of H with
    | Ok (Game__game_over (?gx, ?ex)) = _ =>
        pose proof (Game__game_over_high_score gx ex) as Hhs;
        destruct (Game__game_over_spec gx ex) as (hs & e3 & Hgo & Hn3);
        rewrite Hgo in H, Hhs
    end.
    injection H as <- <-. unfold wf in *. game_simpl. rewrite Hn3.
    split; [left; reflexivity|].
    split.
    { intro Hh. destruct (Hhs Hh) as [Hh1 Hh2].
      split; [exact Hh1 | intros _; exact Hh2]. }
    split; [left; reflexivity|]. split; [reflexivity|].
    split; [exact Hwf|]. split; [lia|].
    repeat (split; [reflexivity || lia|]).
    split; [intros c' Hc'; left; exists c'; auto|].
    left. repeat (split; [reflexivity|]). left. reflexivity.
Qed.

End PlayingFrame.

(* ------------------------------------------------------------------ *)
(** ** Events *)

Lemma handle_event_cases (ev : Event) (g : Game) (e : Env)
    (s' : Game * Env) :
  handle_event ev (g, e) = Running s' ->
  snd s' = e /\
  (fst s' = g \/
   (state g <> PLAYING /\ fst s' = Game__start_game g) \/
   (state g = PLAYING /\ fst s' = flapped g)).
Proof.
  unfold handle_event. intro H.
  destruct ev as [|button pos|key|]; [discriminate| | |].
  - destruct (state g) eqn:Es.
    + destruct button as [|[p|p|]|p];
        try (injection H as <-; split; [reflexivity | left; reflexivity]).
      destruct (Button_clicked (btn_start g) pos); injection H as <-;
        (split; [reflexivity|]);
        [right; left; split; [discriminate | reflexivity] | left; reflexivity].
    + destruct (button =? 1); injection H as <-; (split; [reflexivity|]);
        [right; right; split; reflexivity | left; reflexivity].
    + destruct button as [|[p|p|]|p];
        try (injection H as <-; split; [reflexivity | left; reflexivity]).
      destruct (Button_clicked (btn_restart g) pos); injection H as <-;
        (split; [reflexivity|]);
        [right; left; split; [discriminate | reflexivity] | left; reflexivity].
  - destruct (state g) eqn:Es.
    + injection H as <-. split; [reflexivity | left; reflexivity].
    + destruct (key =? K_SPACE); injection H as <-; (split; [reflexivity|]);
        [right; right; split; reflexivity | left; reflexivity].
    + destruct (key =? K_SPACE); injection H as <-; (split; [reflexivity|]);
        [right; left; split; [discriminate | reflexivity] | left; reflexivity].
  - destruct (state g) eqn:Es; injection H as <-;
      (split; [reflexivity | left; reflexivity]).
Qed.

Lemma flapped_fields (g : Game) :
  walls (flapped g) = walls g /\ enemies (flapped g) = enemies g /\
  coins (flapped g) = coins g /\ state (flapped g) = state g /\
  levels (flapped g) = levels g /\ score (flapped g) = score g /\
  coins_collected (flapped g) = coins_collected g /\
  player (flapped g) = Player_flap (player g) /\
  grace_frames (flapped g)
  = (if grace_frames g >? 0 then 0 else grace_frames g).
Proof.
  unfold flapped. game_simpl.
  destruct (grace_frames g >? 0) eqn:E; game_simpl;
    repeat (split; [reflexivity|]); reflexivity.
Qed.

Lemma Player_flap_alive (p : Player) :
  p_alive (Player_flap p) = p_alive p.
Proof. unfold Player_flap. destruct (p_alive p) eqn:E; cbn; auto. Qed.

(* ------------------------------------------------------------------ *)
(** ** Invariants of the session *)

Lemma wf_start_game (g : Game) (e : Env) : wf (Game__start_game g, e).
Proof.
  unfold wf, Game__start_game. game_simpl.
  repeat split; constructor.
Qed.

Lemma handle_event_keeps (ev : Event) (s s' : Game * Env) :
  wf s -> alive_inv (fst s) ->
  handle_event ev s = Running s' -> step_keeps s s'.
Proof.
  destruct s as [g e]. intros Hwf Hal H.
  apply handle_event_cases in H. destruct s' as [g' e'].
  cbn [fst snd] in *. destruct H as [-> Hcases].
  unfold step_keeps. cbn [fst snd].
  destruct Hcases as [-> | [(_ & ->) | (Hst & ->)]].
  - split; [exact Hwf|]. split; [exact Hal|]. split; [lia|].
    split; [reflexivity|]. intros c' Hc'. left. exists c'. auto.
  - split; [apply wf_start_game|]. split; [reflexivity|]. split; [lia|].
    split; [reflexivity|]. intros c' [].
  - destruct (flapped_fields g)
      as (Hw & He & Hc & Hs & Hl & _ & _ & Hp & _).
    split.
    { unfold wf in *. cbn [fst snd] in *. rewrite Hw, He, Hc. exact Hwf. }
    split.
    { unfold alive_inv in *. rewrite Hp, Hs, Player_flap_alive. exact Hal. }
    split; [lia|]. split; [exact Hl|].
    intros c' Hc'. left. exists c'. rewrite Hc in Hc'. auto.
Qed.

Section SessionInvariants.
Variable sin : Q -> Q.

Lemma Game_update_keeps (mouse_pos : Z * Z) (s s' : Game * Env) :
  wf s -> alive_inv (fst s) ->
  Game_update sin mouse_pos s = Ok s' -> step_keeps s s'.
Proof.
  destruct s as [g e], s' as [g' e']. intros Hwf Hal H.
  unfold Game_update in H. unfold step_keeps. cbn [fst snd] in *.
  destruct (state g) eqn:Es.
  - (* START *)
    injection H as <- <-. unfold update_start.
    destruct (wrap_bg_eq
                (with_bg_x (bg_x g - (3 # 10))%Q
                   (with_player (Player_bob sin (player g))
                      (with_btn_start
                         (Button_update mouse_pos (btn_start g)) g))))
      as [b Hb].
    game_simpl. rewrite Hb. unfold wf, alive_inv in *. game_simpl.
    split; [exact Hwf|]. split; [rewrite Es in *; exact Hal|].
    split; [lia|]. split; [reflexivity|].
    intros c' Hc'. left. exists c'. auto.
  - (* PLAYING *)
    apply update_playing_spec in H; [| exact Hwf | exact Es].
    destruct H
      as (lv & _ & _ & _ & _ & _ & Hwf' & Hn & Hlv & _ & _ & _ & Hprov
          & Hcases).
    split; [exact Hwf'|]. split.
    { unfold alive_inv.
      destruct Hcases as [(Ho & Hd & _) | (Ho & Hp & Ha & _)].
      - rewrite Ho, Hd. reflexivity.
      - rewrite Ho, Hp, Ha. reflexivity. }
    split; [exact Hn|]. split; [exact Hlv | exact Hprov].
  - (* GAME_OVER *)
    injection H as <- <-. unfold update_game_over.
    destruct (wrap_bg_eq
                (with_bg_x (bg_x g - (15 # 100))%Q
                   (with_btn_restart
                      (Button_update mouse_pos (btn_restart g)) g)))
      as [b Hb].
    game_simpl. rewrite Hb. unfold wf, alive_inv in *. game_simpl.
    split; [exact Hwf|]. split; [rewrite Es in *; exact Hal|].
    split; [lia|]. split; [reflexivity|].
    intros c' Hc'. left. exists c'. auto.
Qed.

Lemma step_keeps_step (s s' : Game * Env) :
  wf s -> alive_inv (fst s) -> step sin s s' -> step_keeps s s'.
Proof.
  intros Hwf Hal Hstep.
  inversion Hstep as [ev s0 s1 H | m s0 s1 H]; subst.
  - exact (handle_event_keeps ev s s' Hwf Hal H).
  - exact (Game_update_keeps m s s' Hwf Hal H).
Qed.


Lemma reachable_inv (s : Game * Env) :
  reachable sin s -> wf s /\ alive_inv (fst s).
Proof.
  induction 1 as [lvs e | s s' _ [Hwf Hal] Hstep].
  - split; [|reflexivity]. unfold wf, Game_init. game_simpl.
    repeat split; constructor.
  - destruct (step_keeps_step s s' Hwf Hal Hstep) as (Hwf' & Hal' & _).
    split; assumption.
Qed.

End SessionInvariants.

(* ================================================================== *)
(** * Scoring *)
(* ================================================================== *)










(** In the model, where positions are finite, the wall loop over distinct
    obstacles returns. *)
Lemma walls_loop_returns (g : Game) (e : Env) :
  NoDup (map w_oid (walls g)) ->
  exists s' over, walls_loop (walls g) (g, e) = Ok (s', over).
Proof.
  intro Hnd. rewrite (walls_loop_scan (walls g) [] g e eq_refl Hnd).
  destruct (walls_scan _ _ (walls g)) as [[l n] hit]. cbv zeta.
  destruct hit; eexists _, _; reflexivity.
Qed.



(* ================================================================== *)
(** * The floor and the death of the player *)
(* ================================================================== *)

Lemma motion_p_y (p q : Player) : motion p = motion q -> p_y p = p_y q.
Proof. intro H. exact (f_equal p_y H). Qed.

Lemma alive_inv_playing (g : Game) :
  alive_inv g -> state g = PLAYING -> p_alive (player g) = true.
Proof. unfold alive_inv. intros H Hs. rewrite H, Hs. reflexivity. Qed.

Lemma alive_inv_dead (g : Game) :
  alive_inv g -> p_alive (player g) = false -> state g = GAME_OVER.
Proof.
  unfold alive_inv. intros H Hd. rewrite Hd in H.
  destruct (state g); [discriminate | discriminate | reflexivity].
Qed.

Section Death.
Variable sin : Q -> Q.

Lemma update_game_over_player (mouse_pos : Z * Z) (g : Game) :
  player (update_game_over mouse_pos g) = player g /\
  state (update_game_over mouse_pos g) = state g.
Proof.
  unfold update_game_over.
  destruct (wrap_bg_eq
              (with_bg_x (bg_x g - (15 # 100))%Q
                 (with_btn_restart (Button_update mouse_pos (btn_restart g))
                    g))) as [b Hb].
  game_simpl. rewrite Hb. game_simpl. split; reflexivity.
Qed.

Lemma Player_update_dies_on_floor (gravity : option Q) (grace : bool)
    (p : Player) :
  (p_alive (Player_update gravity grace p) = false ->
   p_alive p = false \/ p_y (Player_update gravity grace p) = floor_y) /\
  ((p_y (Player_update gravity grace p) < floor_y)%Q ->
   p_alive (Player_update gravity grace p) = p_alive p) /\
  (p_alive p = false -> p_alive (Player_update gravity grace p) = false).
Proof.
  unfold Player_update. fold floor_y.
  destruct (Qltb _ 0); destruct (Qltb floor_y _); cbn [p_alive p_y];
    repeat split; auto; intro H;
    solve [reflexivity | exfalso; exact (Qlt_irrefl _ H)].
Qed.

Lemma Player_update_grace (gravity : option Q) (p : Player) :
  p_vel (Player_update gravity true p) = 0%Q /\
  p_gravity (Player_update gravity true p) = get gravity (p_gravity p).
Proof.
  unfold Player_update. cbn [negb].
  destruct (Qltb _ 0); destruct (Qltb (float (SCREEN_HEIGHT - PLAYER_H)) _);
    cbn [p_vel p_gravity]; destruct gravity; split; reflexivity.
Qed.

(** X2. After [Player.update] the height lies between 0 and the floor
    ([SCREEN_HEIGHT - PLAYER_H]), whatever the (finite) gravity, the grace
    flag and the player before. The update clears [alive] only together
    with putting the player on the floor: a player that was alive and is
    dead after the step is at the floor height, a step that ends above the
    floor leaves [alive] as it was, and a dead player is never revived by
    it. Under grace the velocity after the step is 0. In a run of the
    program a PLAYING frame starts with a live player and ends either in
    PLAYING with the player alive or in GAME_OVER with the player dead, at
    a height within the same bounds; and once the player is dead the state
    is GAME_OVER, further frames leave the player as it is, and an event
    either changes nothing or restarts the game with a live player. *)
Theorem player_y_clamped_death_once :
  (forall gravity grace p,
     (0 <= p_y (Player_update gravity grace p))%Q /\
     (p_y (Player_update gravity grace p) <= floor_y)%Q) /\
  (forall gravity grace p,
     p_alive p = true ->
     p_alive (Player_update gravity grace p) = false ->
     p_y (Player_update gravity grace p) = floor_y) /\
  (forall gravity grace p,
     (p_y (Player_update gravity grace p) < floor_y)%Q ->
     p_alive (Player_update gravity grace p) = p_alive p) /\
  (forall gravity grace p,
     p_alive p = false ->
     p_alive (Player_update gravity grace p) = false) /\
  (forall gravity p, p_vel (Player_update gravity true p) = 0%Q) /\
  (forall mouse_pos s s',
     reachable sin s -> state (fst s) = PLAYING ->
     Game_update sin mouse_pos s = Ok s' ->
     p_alive (player (fst s)) = true /\
     (0 <= p_y (player (fst s')))%Q /\
     (p_y (player (fst s')) <= floor_y)%Q /\
     (state (fst s') = PLAYING /\ p_alive (player (fst s')) = true \/
      state (fst s') = GAME_OVER /\ p_alive (player (fst s')) = false)) /\
  (forall s,
     reachable sin s -> p_alive (player (fst s)) = false ->
     state (fst s) = GAME_OVER /\
     (forall mouse_pos s',
        Game_update sin mouse_pos s = Ok s' ->
        player (fst s') = player (fst s) /\ state (fst s') = GAME_OVER) /\
     (forall ev s',
        handle_event ev s = Running s' ->
        fst s' = fst s \/
        (fst s' = Game__start_game (fst s) /\
         p_alive (player (fst s')) = true))).
Proof.
  split; [intros; apply Player_update_y_range|].
  split.
  { intros gravity grace p Ha Hd.
    destruct (proj1 (Player_update_dies_on_floor gravity grace p) Hd)
      as [Hx | Hy]; [congruence | exact Hy]. }
  split;
    [intros gravity grace p;
     apply (proj1 (proj2 (Player_update_dies_on_floor gravity grace p)))|].
  split;
    [intros gravity grace p;
     apply (proj2 (proj2 (Player_update_dies_on_floor gravity grace p)))|].
  split; [intros gravity p; apply (proj1 (Player_update_grace gravity p))|].
  split.
  - intros mouse_pos [g e] [g' e'] Hr Hs H. cbn [fst snd] in *.
    destruct (reachable_inv sin _ Hr) as [Hwf Hal]. cbn [fst] in Hal.
    unfold Game_update in H. rewrite Hs in H.
    apply update_playing_spec in H; [| exact Hwf | exact Hs].
    destruct H
      as (lv & Hl & _ & _ & _ & _ & _ & _ & _ & Hm & _ & _ & _ & Hcases).
    split; [apply alive_inv_playing; assumption|].
    rewrite (motion_p_y _ _ Hm). unfold physics_player.
    split; [apply Player_update_y_range|].
    split; [apply Player_update_y_range|].
    destruct Hcases as [(Ho & Hd & _) | (Ho & Hp & Ha & _)].
    + right. split; assumption.
    + left. split; [exact Ho | congruence].
  - intros [g e] Hr Hd. cbn [fst snd] in *.
    destruct (reachable_inv sin _ Hr) as [Hwf Hal]. cbn [fst] in Hal.
    pose proof (alive_inv_dead g Hal Hd) as Hs.
    split; [exact Hs|]. split.
    + intros mouse_pos [g' e'] H. cbn [fst].
      unfold Game_update in H. rewrite Hs in H. injection H as <- <-.
      destruct (update_game_over_player mouse_pos g) as [Hp Hst].
      split; [exact Hp | congruence].
    + intros ev [g' e'] H. cbn [fst].
      apply handle_event_cases in H. cbn [fst snd] in H.
      destruct H as [_ [-> | [(_ & ->) | (Hpl & _)]]].
      * left. reflexivity.
      * right. split; reflexivity.
      * congruence.
Qed.

End Death.

(** A player one pixel above the floor, falling at terminal velocity: the
    step kills it, on the floor. *)
Lemma player_y_clamped_death_once_witness :
  p_alive (player_at 529 7) = true /\
  p_alive (Player_update (Some (3 # 10)) false (player_at 529 7)) = false /\
  p_y (Player_update (Some (3 # 10)) false (player_at 529 7)) = floor_y.
Proof.
  split; [reflexivity|]. split; [reflexivity|].
  apply (proj1 (proj2 (player_y_clamped_death_once sin0))); reflexivity.
Defined.

(* ================================================================== *)
(** * Coin pickup *)
(* ================================================================== *)

Section CoinPickup.
Variable sin : Q -> Q.






End CoinPickup.


(* ================================================================== *)
(** * Flapping during the grace period *)
(* ================================================================== *)



Section Flap.
Variable sin : Q -> Q.


End Flap.


(* ================================================================== *)
(** * The length of the grace period *)
(* ================================================================== *)

Section Grace.
Variable sin : Q -> Q.


End Grace.


(* ================================================================== *)
(** * Collisions and the end of the game *)
(* ================================================================== *)

Section Collisions.
Variable sin : Q -> Q.

Lemma walls_loop_result (g : Game) (e : Env) (s' : Game * Env)
    (over : bool) :
  NoDup (map w_oid (walls g)) ->
  walls_loop (walls g) (g, e) = Ok (s', over) ->
  thinned w_oid (walls g) (walls (fst s')) /\
  if over
  then state (fst s') = GAME_OVER /\ p_alive (player (fst s')) = false /\
       exists w, In w (walls (fst s')) /\
                 WallPair_collides w (Player_rect (player g)) = true
  else state (fst s') = state g /\ player (fst s') = player g /\
       snd s' = e /\
       forall w, In w (walls (fst s')) ->
                 WallPair_collides w (Player_rect (player g)) = false /\
                 WallPair_off_screen w = false.
Proof.
  intros Hnd H.
  rewrite (walls_loop_scan (walls g) [] g e eq_refl Hnd) in H.
  pose proof (walls_scan_thinned (p_x (player g)) (Player_rect (player g))
                (walls g)) as Hthin.
  pose proof (walls_scan_hit (p_x (player g)) (Player_rect (player g))
                (walls g)) as Hhit.
  pose proof (walls_scan_clean (p_x (player g)) (Player_rect (player g))
                (walls g)) as Hclean.
  destruct (walls_scan _ _ (walls g)) as [[l n] hit].
  cbn [fst snd] in Hthin, Hclean. cbv zeta in H. destruct hit.
  - match type of H with
    | Ok (Game__game_over (?gx, ?ex), _) = _ =>
        destruct (Game__game_over_spec gx ex) as (hs & e3 & Hgo & _);
        rewrite Hgo in H
    end.
    injection H as <- <-. game_simpl.
    split; [exact Hthin|]. split; [reflexivity|]. split; [reflexivity|].
    exact Hhit.
  - injection H as <- <-. game_simpl.
    split; [exact Hthin|]. repeat (split; [reflexivity|]).
    intros w Hin. split; [apply Hhit, Hin | apply Hclean; auto].
Qed.

Lemma enemies_loop_result (g : Game) (e : Env) (s' : Game * Env)
    (over : bool) :
  NoDup (map e_oid (enemies g)) ->
  enemies_loop sin (enemies g) (g, e) = Ok (s', over) ->
  thinned e_oid (enemies g) (enemies (fst s')) /\
  if over
  then state (fst s') = GAME_OVER /\ p_alive (player (fst s')) = false /\
       exists en, In en (enemies (fst s')) /\
                  Enemy_collides en (Player_rect (player g)) = true
  else state (fst s') = state g /\ player (fst s') = player g /\
       snd s' = e /\
       forall en, In en (enemies (fst s')) ->
                  Enemy_collides en (Player_rect (player g)) = false /\
                  Enemy_off_screen en = false.
Proof.
  intros Hnd H.
  rewrite (enemies_loop_scan sin (enemies g) [] g e eq_refl Hnd) in H.
  pose proof (enemies_scan_thinned sin (Player_rect (player g)) (enemies g))
    as Hthin.
  pose proof (enemies_scan_hit sin (Player_rect (player g)) (enemies g))
    as Hhit.
  pose proof (enemies_scan_clean sin (Player_rect (player g)) (enemies g))
    as Hclean.
  destruct (enemies_scan sin _ (enemies g)) as [l hit].
  cbn [fst snd] in Hthin, Hclean. cbv zeta in H. destruct hit.
  - match type of H with
    | Ok (Game__game_over (?gx, ?ex), _) = _ =>
        destruct (Game__game_over_spec gx ex) as (hs & e3 & Hgo & _);
        rewrite Hgo in H
    end.
    injection H as <- <-. game_simpl.
    split; [exact Hthin|]. split; [reflexivity|]. split; [reflexivity|].
    exact Hhit.
  - injection H as <- <-. game_simpl.
    split; [exact Hthin|]. repeat (split; [reflexivity|]).
    intros en Hin. split; [apply Hhit, Hin | apply Hclean; auto].
Qed.

(** X5. What the collision tests leave behind. When the wall loop, run
    over the distinct obstacles of a session, returns, the obstacles left
    are a selection of those it started with, in their order; if it
    reports a collision the game is over, the player is dead and an
    obstacle of the collection overlaps the player's hit-box; if not, state
    and player are untouched and no obstacle left overlaps the hit-box or
    is off screen. The enemy loop does the same with the enemies. A
    PLAYING frame that returns, of a session with a live player and
    distinct objects, ends in PLAYING or in GAME_OVER: if it goes on, the player is alive and no
    obstacle, enemy or coin of the result overlaps the player's hit-box; if
    it ends the game, the player is dead and is at the floor height or is
    overlapped by an obstacle or an enemy of the result. *)
Theorem collision_ends_the_game :
  (forall g e s' over,
     NoDup (map w_oid (walls g)) ->
     walls_loop (walls g) (g, e) = Ok (s', over) ->
     thinned w_oid (walls g) (walls (fst s')) /\
     if over
     then state (fst s') = GAME_OVER /\ p_alive (player (fst s')) = false /\
          exists w, In w (walls (fst s')) /\
                    WallPair_collides w (Player_rect (player g)) = true
     else state (fst s') = state g /\ player (fst s') = player g /\
          snd s' = e /\
          forall w, In w (walls (fst s')) ->
                    WallPair_collides w (Player_rect (player g)) = false /\
                    WallPair_off_screen w = false) /\
  (forall g e s' over,
     NoDup (map e_oid (enemies g)) ->
     enemies_loop sin (enemies g) (g, e) = Ok (s', over) ->
     thinned e_oid (enemies g) (enemies (fst s')) /\
     if over
     then state (fst s') = GAME_OVER /\ p_alive (player (fst s')) = false /\
          exists en, In en (enemies (fst s')) /\
                     Enemy_collides en (Player_rect (player g)) = true
     else state (fst s') = state g /\ player (fst s') = player g /\
          snd s' = e /\
          forall en, In en (enemies (fst s')) ->
                     Enemy_collides en (Player_rect (player g)) = false /\
                     Enemy_off_screen en = false) /\
  (forall mouse_pos g e g' e',
     wf (g, e) -> p_alive (player g) = true -> state g = PLAYING ->
     Game_update sin mouse_pos (g, e) = Ok (g', e') ->
     (state g' = PLAYING /\ p_alive (player g') = true /\
      (forall w, In w (walls g') ->
                 WallPair_collides w (Player_rect (player g')) = false) /\
      (forall en, In en (enemies g') ->
                  Enemy_collides en (Player_rect (player g')) = false) /\
      (forall c, In c (coins g') ->
                 Coin_collides c (Player_rect (player g')) = false)) \/
     (state g' = GAME_OVER /\ p_alive (player g') = false /\
      (p_y (player g') = floor_y \/
       (exists w, In w (walls g') /\
                  WallPair_collides w (Player_rect (player g')) = true) \/
       (exists en, In en (enemies g') /\
                   Enemy_collides en (Player_rect (player g')) = true)))).
Proof.
  split; [exact walls_loop_result|]. split; [exact enemies_loop_result|].
  intros mouse_pos g e g' e' Hwf Hal Hst H.
  unfold Game_update in H. rewrite Hst in H.
  apply update_playing_spec in H; [| exact Hwf | exact Hst].
  destruct H
    as (lv & Hl & _ & _ & _ & _ & _ & _ & _ & Hm & _ & _ & _ & Hcases).
  destruct Hcases
    as [(Ho & Hd & _ & _ & Hwhy)
       | (Ho & Hp & Ha & _ & _ & Hnw & Hne & _ & _ & cs & _ & _ & Hc & _)].
  - right. split; [exact Ho|]. split; [exact Hd|].
    destruct Hwhy as [Hdead | Hhit]; [left | right; exact Hhit].
    rewrite (motion_p_y _ _ Hm). unfold physics_player in *.
    destruct (proj1 (Player_update_dies_on_floor _ _ _) Hdead)
      as [Hx | Hy]; [|exact Hy].
    rewrite Hal in Hx. discriminate Hx.
  - left. split; [exact Ho|]. split; [congruence|].
    split; [exact Hnw|]. split; [exact Hne|].
    intros c Hin. rewrite Hc in Hin.
    apply (coins_kept_no_overlap sin _ _ _ Hin).
Qed.

End Collisions.

(** The upper pillar reaches the player: the wall loop ends the game. *)
Lemma collision_ends_the_game_witness :
  exists s' over,
    walls_loop [wall_example 152] (collision_example, env_after 1)
    = Ok (s', over) /\
    (if over then state (fst s') = GAME_OVER
     else state (fst s') = state collision_example).
Proof.
  assert (Hnd : NoDup (map w_oid (walls collision_example)))
    by (cbn; constructor; [intros [] | constructor]).
  destruct (walls_loop_returns collision_example (env_after 1) Hnd)
    as (s' & over & H).
  exists s', over. split; [exact H|].
  pose proof (proj1 (collision_ends_the_game sin0) collision_example
                (env_after 1) s' over Hnd H) as [_ Hr].
  destruct over; [exact (proj1 Hr) | exact (proj1 Hr)].
Defined.

(* ================================================================== *)
(** * Hit-boxes: the worked example *)
(* ================================================================== *)



Section WorkedExample.
Variable sin : Q -> Q.


End WorkedExample.



(* ================================================================== *)
(** * Errors of the obstacle generator *)
(* ================================================================== *)

Lemma randint_empty (a b : Z) (e : Env) :
  b < a -> randint a b e = Raise ValueError.
Proof.
  intro H. unfold randint.
  destruct (a <=? b) eqn:E; [apply Z.leb_le in E; lia | reflexivity].
Qed.

Lemma create_rock_surface_cases (h : Z) :
  (h < 24 -> create_rock_surface h = Raise ValueError) /\
  (24 <= h -> create_rock_surface h = Ok tt).
Proof.
  unfold create_rock_surface. split; intro H.
  - destruct (h <? 24) eqn:E; [reflexivity | apply Z.ltb_ge in E; lia].
  - destruct (h <? 24) eqn:E; [apply Z.ltb_lt in E; lia | reflexivity].
Qed.

Lemma WallPair_init_explicit (x g : Z) (speed : Q) (gy : Z) (e : Env) :
  gy <> 0 ->
  WallPair_init x g speed (Some gy) e =
  ' _ <- create_rock_surface (Z.max 10 (gy - g / 2)) ;;
  ' _ <- create_rock_surface (Z.max 10 (SCREEN_HEIGHT - (gy + g / 2))) ;;
  Ok ({| w_oid := next_oid e; w_x := float x; w_speed := speed;
         w_gap_size := g; w_scored := false; w_gap_y := gy;
         w_top_h := Z.max 10 (gy - g / 2);
         w_bot_start := gy + g / 2 |}, snd (alloc e)).
Proof.
  intro H. unfold WallPair_init, alloc.
  destruct (gy =? 0) eqn:E; [apply Z.eqb_eq in E; contradiction|].
  reflexivity.
Qed.

Lemma playing_physics_eq (g : Game) (lv : Level) (g1 : Game) :
  Game__level g = Ok (lv, g1) ->
  playing_physics g
  = Ok (lv, with_player (physics_player lv g)
              (with_grace_frames
                 (if grace_frames g >? 0 then grace_frames g - 1
                  else grace_frames g)
                 (with_level_idx (level_index (score g) (levels g)) g))).
Proof.
  intro Hl. unfold playing_physics. rewrite Hl. cbn [bind].
  pose proof (Game__level_Ok _ _ _ Hl) as ->. game_simpl.
  unfold physics_player.
  destruct (grace_frames g >? 0); [reflexivity|]. destruct g; reflexivity.
Qed.

Lemma physics_player_start (lv : Level) (g : Game) :
  physics_player lv (Game__start_game g)
  = {| p_x := p_x (player g);
       p_y := (float (SCREEN_HEIGHT / 2 - PLAYER_H / 2) + 0)%Q;
       p_vel := 0; p_alive := true; p_bob_t := 0;
       p_gravity := get (gravity lv) (3 # 10);
       p_flap_power := p_flap_power (player g);
       p_max_fall := p_max_fall (player g) |}.
Proof.
  unfold physics_player.
  change (grace_frames (Game__start_game g) >? 0) with true.
  change (player (Game__start_game g)) with (Player_reset (player g)).
  unfold Player_update, Player_reset.
  cbn [negb p_x p_y p_vel p_alive p_bob_t p_gravity p_flap_power p_max_fall].
  change (Qltb (float (SCREEN_HEIGHT / 2 - PLAYER_H / 2) + 0) 0) with false.
  cbv iota.
  change (Qltb (float (SCREEN_HEIGHT - PLAYER_H))
            (float (SCREEN_HEIGHT / 2 - PLAYER_H / 2) + 0)) with false.
  reflexivity.
Qed.

Lemma gap_too_large (G : Z) :
  230 < G / 2 -> SCREEN_HEIGHT - 70 - G / 2 < 70 + G / 2.
Proof. unfold SCREEN_HEIGHT. lia. Qed.

Section GeneratorErrors.
Variable sin : Q -> Q.

(** The first PLAYING frame has no wall yet and must spawn one. *)
Lemma playing_entities_first_wall_raises (lv : Level) (g : Game) (e : Env) :
  walls g = [] ->
  230 < Z.max (get (gap_size lv) 200) (PLAYER_H + 80) / 2 ->
  playing_entities sin lv (g, e) = Raise ValueError.
Proof.
  intros Hw Hgap. unfold playing_entities.
  match goal with
  | |- context [wrap_bg ?x] => destruct (wrap_bg_eq x) as [b Hb]; rewrite Hb
  end.
  unfold spawn_wall. cbn [walls with_bg_x]. rewrite Hw. cbn [bind].
  unfold WallPair_init, alloc.
  rewrite randint_empty; [reflexivity|].
  exact (gap_too_large _ Hgap).
Qed.

(** X6. With a drawn gap centre [WallPair.__init__] raises [ValueError]
    exactly when half the gap size exceeds 230 (the range of the draw is
    empty), and returns a wall pair otherwise; a passed gap centre of 0
    counts as absent; a passed non-zero centre that leaves a pillar body
    lower than 24 pixels raises [ValueError] in [create_rock_surface], and
    any other is taken as it is. A level whose effective gap size is too
    large therefore makes the first frame after the start raise. *)
Theorem wallpair_init_errors :
  (forall x g speed e,
     230 < g / 2 -> WallPair_init x g speed None e = Raise ValueError) /\
  (forall x g speed e,
     g / 2 <= 230 ->
     exists w e', WallPair_init x g speed None e = Ok (w, e')) /\
  (forall x g speed e,
     WallPair_init x g speed (Some 0) e = WallPair_init x g speed None e) /\
  (forall x g speed gy e,
     gy <> 0 ->
     gy - g / 2 < 24 \/ SCREEN_HEIGHT - (gy + g / 2) < 24 ->
     WallPair_init x g speed (Some gy) e = Raise ValueError) /\
  (forall x g speed gy e,
     gy <> 0 ->
     24 <= gy - g / 2 -> 24 <= SCREEN_HEIGHT - (gy + g / 2) ->
     exists w,
       WallPair_init x g speed (Some gy) e = Ok (w, snd (alloc e)) /\
       w_gap_y w = gy /\ top_height w = gy - g / 2 /\
       bottom_height w = SCREEN_HEIGHT - (gy + g / 2)) /\
  (forall mouse_pos g e lv g1,
     Game__level (Game__start_game g) = Ok (lv, g1) ->
     230 < Z.max (get (gap_size lv) 200) (PLAYER_H + 80) / 2 ->
     Game_update sin mouse_pos (Game__start_game g, e) = Raise ValueError).
Proof.
  split; [|split; [|split; [|split; [|split]]]].
  - intros x g speed e H. unfold WallPair_init, alloc.
    rewrite randint_empty; [reflexivity | exact (gap_too_large g H)].
  - intros x g speed e. apply WallPair_init_total.
  - intros x g speed e. reflexivity.
  - intros x g speed gy e Hgy Hsmall.
    rewrite (WallPair_init_explicit x g speed gy e Hgy).
    destruct (Z_lt_le_dec (gy - g / 2) 24) as [Ht | Ht].
    + rewrite (proj1 (create_rock_surface_cases _)); [reflexivity | lia].
    + rewrite (proj2 (create_rock_surface_cases (Z.max 10 (gy - g / 2))));
        [| lia].
      cbn [bind].
      rewrite (proj1 (create_rock_surface_cases _)); [reflexivity | lia].
  - intros x g speed gy e Hgy Ht Hb.
    rewrite (WallPair_init_explicit x g speed gy e Hgy).
    rewrite (proj2 (create_rock_surface_cases (Z.max 10 (gy - g / 2))));
      [| lia].
    cbn [bind].
    rewrite (proj2 (create_rock_surface_cases
                      (Z.max 10 (SCREEN_HEIGHT - (gy + g / 2))))); [| lia].
    cbn [bind]. eexists. split; [reflexivity|].
    unfold top_height, bottom_height, WallPair_top_rect, WallPair_bot_rect.
    cbn [rh w_gap_y w_top_h w_bot_start]. repeat split; lia.
  - intros mouse_pos g e lv g1 Hl Hgap.
    assert (Hst : state (Game__start_game g) = PLAYING) by reflexivity.
    unfold Game_update. rewrite Hst. unfold update_playing.
    rewrite (playing_physics_eq _ _ _ Hl).
    cbn [bind player with_player]. rewrite physics_player_start.
    cbn [p_alive negb].
    apply playing_entities_first_wall_raises; [|exact Hgap].
    cbn [walls with_player with_grace_frames with_level_idx]. reflexivity.
Qed.

End GeneratorErrors.

(** Gap size 462 is the first to fail. *)
Lemma wallpair_init_errors_witness :
  WallPair_init 840 462 2 None (env_const 0 Missing) = Raise ValueError /\
  exists w e', WallPair_init 840 460 2 None (env_const 0 Missing) = Ok (w, e').
Proof.
  destruct (wallpair_init_errors sin0) as (Hraise & Hok & _).
  split.
  - apply Hraise. reflexivity.
  - apply Hok. discriminate.
Defined.

(* ================================================================== *)
(** * The level table *)
(* ================================================================== *)

Lemma list_last_In {A : Type} (l : list A) (a : A) :
  list_last l = Ok a -> In a l.
Proof.
  destruct l as [|x l]; [discriminate|].
  intro H. destruct (list_last_nonempty (x :: l)) as (a' & Ha & Hn);
    [discriminate|].
  rewrite Ha in H. injection H as <-.
  exact (nth_error_In _ _ Hn).
Qed.

Lemma Game__level_In (g : Game) (lv : Level) (g1 : Game) :
  Game__level g = Ok (lv, g1) -> In lv (levels g).
Proof.
  unfold Game__level.
  destruct (level_scan (score g) 0 (levels g)) as [[i l]|] eqn:E; intro H.
  - injection H as <- _.
    destruct (level_scan_Some _ _ _ _ _ E) as (_ & Hn & _).
    exact (nth_error_In _ _ Hn).
  - apply bind_Ok in H. destruct H as (l & Hl & H). injection H as <- _.
    exact (list_last_In _ _ Hl).
Qed.

Section LevelTable.
Variable sin : Q -> Q.

(** X7. [_level] raises [IndexError] exactly when the level table is
    empty, and otherwise returns an entry of the table. With an empty
    table every PLAYING frame raises [IndexError], while START and
    GAME_OVER frames, which never look a level up, still go through. *)
Theorem level_lookup_empty_table :
  (forall g, levels g = [] -> Game__level g = Raise IndexError) /\
  (forall g x, Game__level g = Raise x -> levels g = [] /\ x = IndexError) /\
  (forall g lv g1, Game__level g = Ok (lv, g1) -> In lv (levels g)) /\
  (forall mouse_pos g e,
     state g = PLAYING -> levels g = [] ->
     Game_update sin mouse_pos (g, e) = Raise IndexError) /\
  (forall mouse_pos g e,
     state g <> PLAYING ->
     exists g', Game_update sin mouse_pos (g, e) = Ok (g', e)).
Proof.
  split; [|split; [|split; [|split]]].
  - intros g H. unfold Game__level. rewrite H. reflexivity.
  - intros g x H. unfold Game__level in H.
    destruct (level_scan (score g) 0 (levels g)) as [[i l]|]; [discriminate|].
    destruct (levels g) as [|lv0 rest]; [cbn in H; injection H as <-; auto|].
    destruct (list_last_nonempty (lv0 :: rest)) as (a & Ha & _);
      [discriminate|].
    rewrite Ha in H. discriminate.
  - exact Game__level_In.
  - intros mouse_pos g e Hst Hl. unfold Game_update. rewrite Hst.
    unfold update_playing, playing_physics, Game__level. rewrite Hl.
    reflexivity.
  - intros mouse_pos g e Hst. unfold Game_update.
    destruct (state g); [eexists; reflexivity | congruence
                        | eexists; reflexivity].
Qed.

End LevelTable.

(** The first frame after a start with an empty table. *)
Lemma level_lookup_empty_table_witness :
  Game_update sin0 (0, 0)
    (Game__start_game (Game_init [] (env_const 0 Missing)),
     env_const 0 Missing)
  = Raise IndexError.
Proof.
  apply (proj1 (proj2 (proj2 (proj2 (level_lookup_empty_table sin0)))));
    reflexivity.
Defined.

(* ================================================================== *)
(** * Events *)
(* ================================================================== *)

Lemma handle_events_app (l1 l2 : list Event) :
  forall s,
    handle_events (l1 ++ l2) s
    = match handle_events l1 s with
      | Running s' => handle_events l2 s'
      | Exited e => Exited e
      end.
Proof.
  induction l1 as [|ev l1 IH]; intro s; cbn [app handle_events].
  - reflexivity.
  - destruct (handle_event ev s) as [s'|e]; [apply IH | reflexivity].
Qed.

Lemma handle_event_QUIT (s : Game * Env) :
  handle_event QUIT s = Exited (Game__quit s).
Proof. destruct s as [g e]. reflexivity. Qed.

Lemma handle_event_Exited (ev : Event) (s : Game * Env) (e : Env) :
  handle_event ev s = Exited e -> ev = QUIT.
Proof.
  destruct s as [g e0]. unfold handle_event.
  destruct ev as [|button pos|key|]; [reflexivity | | |].
  - destruct (state g).
    + destruct button as [|[p|p|]|p]; try discriminate.
      destruct (Button_clicked _ _); discriminate.
    + destruct (button =? 1); discriminate.
    + discriminate.
  - destruct (state g).
    + discriminate.
    + destruct (key =? K_SPACE); discriminate.
    + discriminate.
  - destruct (state g); discriminate.
Qed.

Lemma handle_event_not_QUIT (ev : Event) (s : Game * Env) :
  ev <> QUIT -> exists s', handle_event ev s = Running s' /\ snd s' = snd s.
Proof.
  intro Hq. destruct (handle_event ev s) as [s'|e] eqn:E.
  - exists s'. split; [reflexivity|]. destruct s as [g e0].
    apply handle_event_cases in E. exact (proj1 E).
  - apply handle_event_Exited in E. contradiction.
Qed.

(** X8. Handling a batch of events composes: the events are handled in
    order, each on the session the previous one left. QUIT ends the
    process at once with the best score saved, so later events of the
    batch are never handled; a batch without QUIT never ends the process
    and leaves the environment (high-score file, random source,
    allocations) untouched. *)
Theorem events_stop_at_quit :
  (forall l1 l2 s,
     handle_events (l1 ++ l2) s
     = match handle_events l1 s with
       | Running s' => handle_events l2 s'
       | Exited e => Exited e
       end) /\
  (forall l s, handle_events (QUIT :: l) s = Exited (Game__quit s)) /\
  (forall evs s,
     ~ In QUIT evs ->
     exists s', handle_events evs s = Running s' /\ snd s' = snd s) /\
  (forall evs s e,
     handle_events evs s = Exited e ->
     exists l1 l2 s1,
       evs = l1 ++ QUIT :: l2 /\ ~ In QUIT l1 /\
       handle_events l1 s = Running s1 /\ e = Game__quit s1 /\
       snd s1 = snd s).
Proof.
  split; [exact handle_events_app|]. split; [|split].
  - intros l s. cbn [handle_events]. rewrite handle_event_QUIT. reflexivity.
  - induction evs as [|ev evs IH]; intros s Hnq.
    + exists s. split; reflexivity.
    + destruct (handle_event_not_QUIT ev s) as (s1 & H1 & He1).
      { intros ->. apply Hnq. left. reflexivity. }
      destruct (IH s1) as (s' & H' & He').
      { intro Hin. apply Hnq. right. exact Hin. }
      exists s'. cbn [handle_events]. rewrite H1. split; [exact H'|].
      congruence.
  - induction evs as [|ev evs IH]; intros s e H; [discriminate|].
    cbn [handle_events] in H.
    destruct (handle_event ev s) as [s1|e1] eqn:E.
    + destruct (IH s1 e H) as (l1 & l2 & s2 & -> & Hnq & Hrun & -> & Hs).
      assert (Hev : ev <> QUIT).
      { intros ->. rewrite handle_event_QUIT in E. discriminate. }
      exists (ev :: l1), l2, s2. split; [reflexivity|]. split.
      { intros [Hq | Hin]; [congruence | contradiction]. }
      split; [cbn [handle_events]; rewrite E; exact Hrun|].
      split; [reflexivity|].
      destruct (handle_event_not_QUIT ev s Hev) as (s1' & H1 & He1).
      rewrite E in H1. injection H1 as <-. congruence.
    + injection H as <-. pose proof (handle_event_Exited _ _ _ E) as ->.
      rewrite handle_event_QUIT in E. injection E as <-.
      exists [], evs, s. split; [reflexivity|]. split; [intros []|].
      split; [reflexivity|]. split; reflexivity.
Qed.

(** SPACE restarts, QUIT then ends the process; the third event is not
    handled. *)
Lemma events_stop_at_quit_witness :
  handle_events [KEYDOWN K_SPACE; QUIT; KEYDOWN K_SPACE]
    (game_over_example, env_const 0 (Stored (Some 5)))
  = Exited (Game__quit (Game__start_game game_over_example,
                        env_const 0 (Stored (Some 5)))) /\
  load_highscore
    (Game__quit (Game__start_game game_over_example,
                 env_const 0 (Stored (Some 5)))) = 5.
Proof.
  destruct (proj2 (proj2 (proj2 events_stop_at_quit))
              [KEYDOWN K_SPACE; QUIT; KEYDOWN K_SPACE]
              (game_over_example, env_const 0 (Stored (Some 5)))
              _ eq_refl)
    as (l1 & l2 & s1 & _ & _ & _ & _ & _).
  split; reflexivity.
Defined.

(* ================================================================== *)
(** * Buttons and the title screen *)
(* ================================================================== *)

Lemma collidepoint_iff (r : Rect) (x y : Z) :
  collidepoint r (x, y) = true <->
  rx r <= x < rx r + rw r /\ ry r <= y < ry r + rh r.
Proof.
  unfold collidepoint. rewrite !andb_true_iff, !Z.leb_le, !Z.ltb_lt. lia.
Qed.

Section TitleScreen.
Variable sin : Q -> Q.

(** X9. A button reacts to the points of its rectangle, which is centred
    with rounded-down halves; the start button covers x in [295, 505) and
    y in [383, 438), and a START frame keeps its rectangle and the state.
    On the title screen the game starts exactly on a left click inside the
    start button, through [_start_game]; every other event that does not
    quit, SPACE included, leaves the session as it is. *)
Theorem title_screen_needs_click :
  (forall cx cy w h x y,
     Button_clicked (Button_init cx cy w h) (x, y) = true <->
     cx - w / 2 <= x < cx - w / 2 + w /\ cy - h / 2 <= y < cy - h / 2 + h) /\
  (forall lvs e x y,
     Button_clicked (btn_start (Game_init lvs e)) (x, y) = true <->
     295 <= x < 505 /\ 383 <= y < 438) /\
  (forall mouse_pos g,
     b_rect (btn_start (update_start sin mouse_pos g)) = b_rect (btn_start g)
     /\ state (update_start sin mouse_pos g) = state g) /\
  (forall ev g e s',
     state g = START -> handle_event ev (g, e) = Running s' ->
     (state (fst s') = PLAYING <->
      exists pos, ev = MOUSEBUTTONDOWN 1 pos /\
                  Button_clicked (btn_start g) pos = true) /\
     (state (fst s') = PLAYING -> s' = (Game__start_game g, e)) /\
     (state (fst s') <> PLAYING -> s' = (g, e))) /\
  (forall key g e,
     state g = START -> handle_event (KEYDOWN key) (g, e) = Running (g, e)).
Proof.
  split; [|split; [|split; [|split]]].
  - intros cx cy w h x y. unfold Button_clicked, Button_init. cbn [b_rect].
    rewrite collidepoint_iff. cbn [rx ry rw rh]. reflexivity.
  - intros lvs e x y. unfold Button_clicked, Game_init. cbn [btn_start].
    unfold Button_init. cbn [b_rect]. rewrite collidepoint_iff.
    cbn [rx ry rw rh]. unfold SCREEN_WIDTH.
    change (800 / 2 - 210 / 2) with 295. change (410 - 55 / 2) with 383.
    lia.
  - intros mouse_pos g. unfold update_start.
    match goal with
    | |- context [wrap_bg ?x] => destruct (wrap_bg_eq x) as [b Hb]; rewrite Hb
    end.
    game_simpl. split; reflexivity.
  - intros ev g e s' Hst H. unfold handle_event in H. rewrite Hst in H.
    destruct ev as [|button pos|key|]; [discriminate| | |].
    + destruct button as [|[p|p|]|p];
        try (injection H as <-; cbn [fst]; rewrite Hst;
             split; [split; [discriminate | intros (pos0 & Hev & _);
                                            discriminate]
                    | split; [discriminate | reflexivity]]).
      destruct (Button_clicked (btn_start g) pos) eqn:Hc; injection H as <-;
        cbn [fst].
      * split; [split; [intros _; exists pos; auto | reflexivity]|].
        split; [reflexivity|]. intro Hn. exfalso. apply Hn. reflexivity.
      * rewrite Hst. split; [split; [discriminate|]|].
        -- intros (pos0 & Hev & Hc0). injection Hev as <-. congruence.
        -- split; [discriminate | reflexivity].
    + injection H as <-. cbn [fst]. rewrite Hst.
      split; [split; [discriminate | intros (pos0 & Hev & _); discriminate]|].
      split; [discriminate | reflexivity].
    + injection H as <-. cbn [fst]. rewrite Hst.
      split; [split; [discriminate | intros (pos0 & Hev & _); discriminate]|].
      split; [discriminate | reflexivity].
  - intros key g e Hst. unfold handle_event. rewrite Hst. reflexivity.
Qed.

End TitleScreen.

(** SPACE on the title screen does nothing; a click on the centre of the
    start button starts the game. *)
Lemma title_screen_needs_click_witness :
  handle_event (KEYDOWN K_SPACE)
    (Game_init levels3 (env_const 0 Missing), env_const 0 Missing)
  = Running (Game_init levels3 (env_const 0 Missing), env_const 0 Missing) /\
  handle_event (MOUSEBUTTONDOWN 1 (400, 410))
    (Game_init levels3 (env_const 0 Missing), env_const 0 Missing)
  = Running (playing_example, env_const 0 Missing).
Proof.
  destruct (title_screen_needs_click sin0) as (_ & _ & _ & Hev & Hkey).
  split.
  - apply Hkey. reflexivity.
  - destruct (Hev (MOUSEBUTTONDOWN 1 (400, 410))
                (Game_init levels3 (env_const 0 Missing))
                (env_const 0 Missing)
                (playing_example, env_const 0 Missing) eq_refl eq_refl)
      as (_ & Hstart & _).
    reflexivity.
Defined.

(* ================================================================== *)
(** * Random draws *)
(* ================================================================== *)

Lemma random_range (e : Env) : (0 <= fst (random e) /\ fst (random e) < 1)%Q.
Proof.
  unfold random, draw. cbn [fst].
  pose proof (Z.mod_pos_bound (rng_seq e (rng_pos e)) (2 ^ 53) eq_refl) as H.
  unfold Qle, Qlt. cbn [Qnum Qden]. split; lia.
Qed.

Lemma uniform_range (a b : Q) (e : Env) :
  (a < b)%Q -> (a <= fst (uniform a b e) /\ fst (uniform a b e) < b)%Q.
Proof.
  intro Hab. unfold uniform.
  pose proof (random_range e) as [H0 H1].
  destruct (random e) as [u e']. cbn [fst] in *.
  split; nra.
Qed.

Lemma randint_pos (a b : Z) (e : Env) (v : Z) (e' : Env) :
  randint a b e = Ok (v, e') -> rng_pos e' = S (rng_pos e).
Proof.
  unfold randint. destruct (a <=? b); [|discriminate].
  unfold draw. intro H. injection H as _ <-. reflexivity.
Qed.

Lemma uniform_pos (a b : Q) (e : Env) :
  rng_pos (snd (uniform a b e)) = S (rng_pos e).
Proof. reflexivity. Qed.

Lemma int_float (n : Z) : int (float n) = n.
Proof.
  unfold int, float. destruct (Qle_bool 0 (inject_Z n));
    [apply Qfloor_Z | apply Qceiling_Z].
Qed.

(* ================================================================== *)
(** * Enemies *)
(* ================================================================== *)

Lemma Enemy_init_total (speed : Q) (e : Env) :
  exists en e', Enemy_init speed e = Ok (en, e').
Proof.
  unfold Enemy_init, alloc.
  match goal with
  | |- context [randint 20 120 ?e0] =>
      destruct (randint_total 20 120 e0) as (dx & e1 & ->); [lia|]
  end.
  cbn [bind].
  destruct (randint_total 40 (SCREEN_HEIGHT - ENEMY_H - 40) e1)
    as (by_ & e2 & ->); [unfold SCREEN_HEIGHT, ENEMY_H; lia|].
  cbn [bind].
  destruct (uniform 0 (2 * math_pi) e2) as [wt e3].
  destruct (randint_total 25 55 e3) as (amp & e4 & ->); [lia|].
  cbn [bind].
  destruct (uniform (25 # 1000) (55 # 1000) e4) as [ws e5].
  eauto.
Qed.

Lemma Enemy_init_fields (speed : Q) (e : Env) (en : Enemy) (e' : Env) :
  Enemy_init speed e = Ok (en, e') ->
  rng_pos e' = (rng_pos e + 5)%nat /\
  (exists dx, e_x en = float (SCREEN_WIDTH + dx) /\ 20 <= dx <= 120) /\
  (exists by_,
     e_base_y en = float by_ /\ e_y en = float by_ /\
     40 <= by_ <= SCREEN_HEIGHT - ENEMY_H - 40) /\
  e_speed en = speed /\
  25 <= e_wave_amp en <= 55 /\
  (0 <= e_wave_t en /\ e_wave_t en < 2 * math_pi)%Q /\
  ((25 # 1000) <= e_wave_spd en /\ e_wave_spd en < (55 # 1000))%Q.
Proof.
  unfold Enemy_init, alloc. intro H.
  apply bind_Ok in H. destruct H as ([dx e1] & H1 & H).
  apply bind_Ok in H. destruct H as ([by_ e2] & H2 & H).
  pose proof (uniform_range 0 (2 * math_pi) e2 eq_refl) as U3.
  pose proof (uniform_pos 0 (2 * math_pi) e2) as P3.
  destruct (uniform 0 (2 * math_pi) e2) as [wt e3].
  apply bind_Ok in H. destruct H as ([amp e4] & H4 & H).
  pose proof (uniform_range (25 # 1000) (55 # 1000) e4 eq_refl) as U5.
  pose proof (uniform_pos (25 # 1000) (55 # 1000) e4) as P5.
  destruct (uniform (25 # 1000) (55 # 1000) e4) as [ws e5].
  cbn [fst snd] in *. injection H as <- <-.
  cbn [e_x e_base_y e_y e_speed e_wave_amp e_wave_t e_wave_spd].
  pose proof (randint_pos _ _ _ _ _ H1) as P1. cbn [rng_pos] in P1.
  pose proof (randint_pos _ _ _ _ _ H2) as P2.
  pose proof (randint_pos _ _ _ _ _ H4) as P4.
  apply randint_range in H1, H2, H4.
  split; [lia|]. split; [exists dx; auto|]. split; [exists by_; auto|].
  split; [reflexivity|]. split; [exact H4|]. split; assumption.
Qed.

(** X10. Whenever [Enemy.__init__] returns, the new enemy starts 20 to
    120 pixels right of the screen edge, on a base line between 40 and
    490, with the given speed, an amplitude between 25 and 55, a phase in
    [0, 2 pi) and a wave speed in [0.025, 0.055); it is not off screen,
    and it does not overlap the hit-box of a player at the player's fixed
    x, whatever the player's height. *)
Theorem enemy_spawn_ranges (speed : Q) (e : Env) (en : Enemy) (e' : Env) :
  Enemy_init speed e = Ok (en, e') ->
  e_oid en = next_oid e /\ next_oid e' = S (next_oid e) /\
  hs_file e' = hs_file e /\
  (exists dx, e_x en = float (SCREEN_WIDTH + dx) /\ 20 <= dx <= 120) /\
  (exists by_,
     e_base_y en = float by_ /\ e_y en = float by_ /\
     40 <= by_ <= SCREEN_HEIGHT - ENEMY_H - 40) /\
  e_speed en = speed /\
  25 <= e_wave_amp en <= 55 /\
  (0 <= e_wave_t en /\ e_wave_t en < 2 * math_pi)%Q /\
  ((25 # 1000) <= e_wave_spd en /\ e_wave_spd en < (55 # 1000))%Q /\
  Enemy_off_screen en = false /\
  (forall p, p_x p = PLAYER_X ->
             Enemy_collides en (Player_rect p) = false).
Proof.
  intro H.
  destruct (Enemy_init_Ok _ _ _ _ H) as (Ho & Hn & Hf).
  destruct (Enemy_init_fields _ _ _ _ H)
    as (_ & (dx & Hx & Hdx) & Hby & Hs & Ha & Ht & Hw).
  repeat (split; [assumption|]).
  split; [exists dx; auto|]. repeat (split; [assumption|]).
  split.
  - unfold Enemy_off_screen, Qltb. rewrite Hx. unfold float.
    rewrite <- inject_Z_plus.
    destruct (Qle_bool (inject_Z (-10)) (inject_Z (SCREEN_WIDTH + dx + ENEMY_W)))
      eqn:E; [reflexivity|].
    exfalso. assert (Hle : (inject_Z (-10) <= inject_Z (SCREEN_WIDTH + dx + ENEMY_W))%Q).
    { rewrite <- Zle_Qle. unfold SCREEN_WIDTH, ENEMY_W. lia. }
    apply Qle_bool_iff in Hle. congruence.
  - intros p Hpx. unfold Enemy_collides, colliderect, Enemy_rect, Player_rect.
    cbn [rx ry rw rh]. rewrite Hx, int_float, Hpx.
    destruct (_ || _); [reflexivity|].
    assert (Hf1 : (Z.min (SCREEN_WIDTH + dx + 10)
                     (SCREEN_WIDTH + dx + 10 + (ENEMY_W - 20))
                   <? Z.max (PLAYER_X + 8) (PLAYER_X + 8 + (PLAYER_W - 16)))
                  = false).
    { apply Z.ltb_ge. unfold SCREEN_WIDTH, ENEMY_W, PLAYER_X, PLAYER_W. lia. }
    rewrite Hf1. reflexivity.
Qed.

(** The raptor of a fresh environment and the initial player. *)
Lemma enemy_spawn_ranges_witness :
  exists en e',
    Enemy_init (15 # 10) (env_const 0 Missing) = Ok (en, e') /\
    Enemy_collides en (Player_rect Player_init) = false.
Proof.
  destruct (Enemy_init_total (15 # 10) (env_const 0 Missing))
    as (en & e' & H).
  exists en, e'. split; [exact H|].
  destruct (enemy_spawn_ranges (15 # 10) (env_const 0 Missing) en e' H)
    as (_ & _ & _ & _ & _ & _ & _ & _ & _ & _ & Hfree).
  apply Hfree. reflexivity.
Defined.





(* ================================================================== *)
(** * Coin spawning *)
(* ================================================================== *)






(* ================================================================== *)
(** * Invariants of a run *)
(* ================================================================== *)

Lemma Player_update_vel_le (gravity : option Q) (grace : bool) (p : Player) :
  (0 <= p_max_fall p)%Q ->
  (p_vel (Player_update gravity grace p) <= p_max_fall p)%Q.
Proof.
  intro Hm. unfold Player_update.
  assert (Hv : forall v,
             ((if negb grace then pymin v (p_max_fall p) else 0)
              <= p_max_fall p)%Q).
  { intro v. destruct grace; cbn [negb]; [exact Hm|].
    unfold pymin. destruct (Qltb (p_max_fall p) v) eqn:E.
    - apply Qle_refl.
    - apply Qltb_ge in E. exact E. }
  destruct (Qltb _ 0);
    destruct (Qltb (float (SCREEN_HEIGHT - PLAYER_H)) _); cbn [p_vel];
    try exact Hm; apply Hv.
Qed.

Lemma motion_fields (p q : Player) :
  motion p = motion q ->
  p_x p = p_x q /\ p_y p = p_y q /\ p_vel p = p_vel q /\
  p_flap_power p = p_flap_power q /\ p_max_fall p = p_max_fall q.
Proof.
  unfold motion, Player_set_alive. intro H.
  injection H as Hx Hy Hv _ _ Hf Hm. auto.
Qed.

Lemma Player_flap_fields (p : Player) :
  p_x (Player_flap p) = p_x p /\ p_y (Player_flap p) = p_y p /\
  p_flap_power (Player_flap p) = p_flap_power p /\
  p_max_fall (Player_flap p) = p_max_fall p /\
  (p_vel (Player_flap p) = p_vel p \/
   p_vel (Player_flap p) = p_flap_power p).
Proof.
  unfold Player_flap. destruct (p_alive p); cbn; auto 10.
Qed.

Lemma Game__level_nonempty (g : Game) (lv : Level) (g1 : Game) :
  Game__level g = Ok (lv, g1) -> levels g <> [].
Proof.
  unfold Game__level. intros H Hnil. rewrite Hnil in H. discriminate.
Qed.

Lemma session_inv_init (lvs : list Level) (e : Env) :
  session_inv (Game_init lvs e, e).
Proof.
  unfold session_inv, Game_init. game_simpl. cbn [Player_init p_x p_y p_vel
    p_flap_power p_max_fall].
  split; [lia|]. split; [lia|]. split; [lia|]. split; [reflexivity|].
  split; [reflexivity|]. split; [reflexivity|]. split; [discriminate|].
  split; [intro H; congruence|]. split; [reflexivity|].
  split; [discriminate|]. split.
  - intro Hne. destruct lvs; [congruence|]. cbn [length]. lia.
  - intros _. repeat split.
Qed.

Lemma session_inv_start_game (g : Game) (e : Env) :
  session_inv (g, e) -> session_inv (Game__start_game g, e).
Proof.
  unfold session_inv, Game__start_game. game_simpl.
  cbn [Player_reset p_x p_y p_vel p_flap_power p_max_fall].
  intros (_ & _ & _ & Hx & Hf & Hm & _ & _ & Hhs & _ & Hli & _).
  split; [lia|]. split; [lia|]. split; [lia|]. split; [exact Hx|].
  split; [exact Hf|]. split; [exact Hm|]. split; [discriminate|].
  split; [intros _; split; [discriminate | discriminate]|].
  split; [exact Hhs|]. split; [discriminate|]. split.
  - intro Hne. specialize (Hli Hne). lia.
  - discriminate.
Qed.

Lemma flapped_more_fields (g : Game) :
  enemy_timer (flapped g) = enemy_timer g /\
  high_score (flapped g) = high_score g /\
  level_idx (flapped g) = level_idx g /\
  bg_x (flapped g) = bg_x g.
Proof.
  unfold flapped. game_simpl.
  destruct (grace_frames g >? 0); game_simpl; repeat split.
Qed.

Lemma session_inv_flapped (g : Game) (e : Env) :
  state g = PLAYING -> session_inv (g, e) -> session_inv (flapped g, e).
Proof.
  intros Hst. unfold session_inv.
  destruct (flapped_fields g)
    as (Hw & He & Hc & Hs & Hl & Hsc & Hcc & Hp & Hg).
  intros (H1 & H2 & H3 & Hx & Hf & Hm & Hv & Hy & Hhs & Hgo & Hli & _).
  destruct (Player_flap_fields (player g)) as (Fx & Fy & Ff & Fm & Fv).
  destruct (flapped_more_fields g) as (Ht & Hh & Hi & _).
  rewrite Hs, Hl, Hsc, Hp, Hg, Fx, Fy, Ff, Fm, Ht, Hh, Hi.
  split; [exact H1|]. split; [destruct (grace_frames g >? 0); lia|].
  split; [exact H3|]. split; [exact Hx|]. split; [exact Hf|].
  split; [exact Hm|]. split.
  { destruct Fv as [-> | ->]; [exact Hv | rewrite Hf; discriminate]. }
  split; [exact Hy|]. split; [exact Hhs|]. split; [exact Hgo|].
  split; [exact Hli|]. congruence.
Qed.

Section RunInvariants.
Variable sin : Q -> Q.

Lemma session_inv_update_start (mouse_pos : Z * Z) (g : Game) (e : Env) :
  state g = START -> session_inv (g, e) ->
  session_inv (update_start sin mouse_pos g, e).
Proof.
  intros Hst. unfold session_inv, update_start.
  match goal with
  | |- context [wrap_bg ?x] => destruct (wrap_bg_eq x) as [b Hb]; rewrite Hb
  end.
  game_simpl. cbn [Player_bob p_x p_y p_vel p_flap_power p_max_fall].
  intros (H1 & H2 & H3 & Hx & Hf & Hm & Hv & _ & Hhs & Hgo & Hli & Hs0).
  repeat (split; [assumption|]).
  split; [congruence|]. repeat (split; [assumption|]). exact Hs0.
Qed.

Lemma session_inv_update_game_over (mouse_pos : Z * Z) (g : Game) (e : Env) :
  state g = GAME_OVER -> session_inv (g, e) ->
  session_inv (update_game_over mouse_pos g, e).
Proof.
  intros Hst. unfold session_inv, update_game_over.
  match goal with
  | |- context [wrap_bg ?x] => destruct (wrap_bg_eq x) as [b Hb]; rewrite Hb
  end.
  game_simpl. tauto.
Qed.

Lemma session_inv_update_playing (g : Game) (e : Env) (g' : Game) (e' : Env) :
  wf (g, e) -> state g = PLAYING -> session_inv (g, e) ->
  update_playing sin (g, e) = Ok (g', e') -> session_inv (g', e').
Proof.
  intros Hwf Hst Hinv H.
  apply update_playing_spec in H; [| exact Hwf | exact Hst].
  destruct H as (lv & Hl & _ & Hhs' & Htm & Hli' & _ & _ & Hlv & Hmo & Hgr
                 & Hsc & _ & Hcases).
  unfold session_inv in *.
  destruct Hinv as (H1 & H2 & H3 & Hx & Hf & Hm & Hv & _ & Hhs & _ & _ & _).
  destruct (motion_fields _ _ Hmo) as (Mx & My & Mv & Mf & Mm).
  unfold physics_player in Mx, My, Mv, Mf, Mm.
  destruct (Player_update_motion_fields
              (Some (get (gravity lv) (3 # 10))) (grace_frames g >? 0)
              (player g)) as (Ux & Uf & Um).
  destruct (Hhs' Hhs) as [Hs1 Hs2].
  assert (Hns : state g' <> START).
  { destruct Hcases as [(Ho & _) | (Ho & _)]; congruence. }
  split; [lia|].
  split; [rewrite Hgr; destruct (grace_frames g >? 0) eqn:E;
          [apply Z.gtb_lt in E|]; lia|].
  split; [destruct Htm as [-> | [-> | ->]]; lia|].
  split; [congruence|]. split; [congruence|]. split; [congruence|].
  split.
  { rewrite Mv. rewrite <- Hm.
    apply Player_update_vel_le. rewrite Hm. discriminate. }
  split.
  { intros _. rewrite My. apply Player_update_y_range. }
  split; [exact Hs1|]. split; [exact Hs2|]. split.
  - intros _. rewrite Hli', Hlv.
    apply level_index_range. exact (Game__level_nonempty _ _ _ Hl).
  - intro Habs. contradiction.
Qed.

Lemma session_inv_step (s s' : Game * Env) :
  wf s -> session_inv s -> step sin s s' -> session_inv s'.
Proof.
  intros Hwf Hinv Hstep.
  inversion Hstep as [ev s0 s1 H | m s0 s1 H]; subst.
  - destruct s as [g e], s' as [g' e'].
    apply handle_event_cases in H. cbn [fst snd] in H.
    destruct H as [-> [-> | [(_ & ->) | (Hst & ->)]]].
    + exact Hinv.
    + apply session_inv_start_game, Hinv.
    + apply session_inv_flapped; assumption.
  - destruct s as [g e], s' as [g' e'].
    unfold Game_update in H. destruct (state g) eqn:Es.
    + injection H as <- <-. apply session_inv_update_start; assumption.
    + exact (session_inv_update_playing g e g' e' Hwf Es Hinv H).
    + injection H as <- <-. apply session_inv_update_game_over; assumption.
Qed.

Lemma reachable_session_inv (s : Game * Env) :
  reachable sin s -> session_inv s.
Proof.
  induction 1 as [lvs e | s s' Hr IH Hstep].
  - apply session_inv_init.
  - apply (session_inv_step s s'); [| exact IH | exact Hstep].
    exact (proj1 (reachable_inv sin s Hr)).
Qed.

End RunInvariants.

Lemma Game__level_nth (g : Game) (lv : Level) (g1 : Game) :
  Game__level g = Ok (lv, g1) ->
  nth_error (levels g) (Z.to_nat (level_index (score g) (levels g)))
  = Some lv.
Proof.
  unfold Game__level, level_index.
  destruct (level_scan (score g) 0 (levels g)) as [[i l]|] eqn:E; intro H.
  - injection H as <- _.
    destruct (level_scan_Some _ _ _ _ _ E) as (_ & Hn & _).
    replace (i - 0) with i in Hn by lia. exact Hn.
  - apply bind_Ok in H. destruct H as (l & Hl & H). injection H as <- _.
    destruct (levels g) as [|x rest] eqn:El; [discriminate|].
    destruct (list_last_nonempty (x :: rest)) as (a & Ha & Hn);
      [discriminate|].
    rewrite Ha in Hl. injection Hl as <-.
    replace (Z.to_nat (Z.of_nat (length (x :: rest)) - 1))
      with (length (x :: rest) - 1)%nat by lia.
    exact Hn.
Qed.

Lemma list_item_in_range {A : Type} (l : list A) (i : Z) :
  0 <= i < Z.of_nat (length l) ->
  exists a, list_item l i = Ok a /\ nth_error l (Z.to_nat i) = Some a.
Proof.
  intro Hi. unfold list_item.
  destruct (i <? 0) eqn:E; [apply Z.ltb_lt in E; lia|]. rewrite E.
  destruct (nth_error l (Z.to_nat i)) as [a|] eqn:En; [eauto|].
  apply nth_error_None in En. lia.
Qed.

Lemma wrapped_range (x d : Q) :
  (- float SCREEN_WIDTH < x)%Q -> (x <= 0)%Q ->
  (0 <= d)%Q -> (d < float SCREEN_WIDTH)%Q ->
  (- float SCREEN_WIDTH < wrapped (x - d))%Q /\ (wrapped (x - d) <= 0)%Q.
Proof.
  intros H1 H2 H3 H4. unfold wrapped.
  assert (Hneg : (float (- SCREEN_WIDTH) == - float SCREEN_WIDTH)%Q)
    by reflexivity.
  destruct (Qle_bool (x - d) (float (- SCREEN_WIDTH))) eqn:E.
  - apply Qle_bool_iff in E. rewrite Hneg in E. split; lra.
  - assert (Hgt : ~ (x - d <= float (- SCREEN_WIDTH))%Q).
    { intro Hle. apply Qle_bool_iff in Hle. congruence. }
    rewrite Hneg in Hgt. split; lra.
Qed.

Section RunTheorems.
Variable sin : Q -> Q.

(** X13. In every session a run of the program goes through: the player
    is alive exactly when the state is not GAME_OVER; the score and the
    enemy timer are not negative; the grace counter lies between 0 and 50;
    the player stays at its fixed x and never falls faster than 7 pixels a
    frame; outside the title screen the player's height lies between the
    ceiling and the floor; and on the title screen the score and the bonus
    are 0 and there is no obstacle, enemy or coin. *)
Theorem run_invariants (s : Game * Env) :
  reachable sin s ->
  p_alive (player (fst s)) = negb (State_eqb (state (fst s)) GAME_OVER) /\
  0 <= score (fst s) /\
  0 <= grace_frames (fst s) <= 50 /\
  0 <= enemy_timer (fst s) /\
  p_x (player (fst s)) = PLAYER_X /\
  (p_vel (player (fst s)) <= 7)%Q /\
  (state (fst s) <> START ->
   (0 <= p_y (player (fst s)))%Q /\ (p_y (player (fst s)) <= floor_y)%Q) /\
  (state (fst s) = START ->
   score (fst s) = 0 /\ coins_collected (fst s) = 0 /\
   walls (fst s) = [] /\ enemies (fst s) = [] /\ coins (fst s) = []).
Proof.
  intro Hr. pose proof (reachable_session_inv sin s Hr) as Hinv.
  destruct (reachable_inv sin s Hr) as [_ Hal].
  destruct s as [g e]. unfold session_inv in Hinv. cbn [fst snd] in *.
  destruct Hinv as (H1 & H2 & H3 & Hx & _ & _ & Hv & Hy & _ & _ & _ & Hs0).
  split; [exact Hal|]. repeat (split; [assumption|]). exact Hs0.
Qed.

(** X14. In every session of a run the best score in memory equals the
    one stored in the high-score file. Once the game is over the score is
    at most the best score, so the NEW HIGH SCORE! line is shown exactly
    when the score is positive and equals the best score, a tie with an
    older record included. Quitting stores the larger of the best score
    and the score. *)
Theorem best_score_in_sync (s : Game * Env) :
  reachable sin s ->
  load_highscore (snd s) = high_score (fst s) /\
  (state (fst s) = GAME_OVER ->
   score (fst s) <= high_score (fst s) /\
   (new_high_score_line (fst s) = true <->
    0 < score (fst s) /\ score (fst s) = high_score (fst s))) /\
  load_highscore (Game__quit s)
  = Z.max (high_score (fst s)) (score (fst s)).
Proof.
  intro Hr. pose proof (reachable_session_inv sin s Hr) as Hinv.
  destruct s as [g e]. unfold session_inv in Hinv. cbn [fst snd] in *.
  destruct Hinv as (_ & _ & _ & _ & _ & _ & _ & _ & Hhs & Hgo & _).
  split; [exact Hhs|]. split.
  - intro Hst. specialize (Hgo Hst). split; [exact Hgo|].
    unfold new_high_score_line.
    rewrite andb_true_iff, Z.geb_le, Z.gtb_lt. lia.
  - unfold Game__quit. rewrite load_save_highscore. lia.
Qed.

(** X15. With a non-empty level table the HUD look-up
    [self.levels[self.level_idx]] never raises in a session of a run and
    yields an entry of the table; after a PLAYING frame it yields the very
    level the frame was played with. *)
Theorem hud_level_lookup :
  (forall s,
     reachable sin s -> levels (fst s) <> [] ->
     exists lv, hud_level (fst s) = Ok lv /\ In lv (levels (fst s))) /\
  (forall mouse_pos s s',
     reachable sin s -> state (fst s) = PLAYING ->
     Game_update sin mouse_pos s = Ok s' ->
     exists lv g1,
       Game__level (fst s) = Ok (lv, g1) /\ hud_level (fst s') = Ok lv).
Proof.
  split.
  - intros s Hr Hne. pose proof (reachable_session_inv sin s Hr) as Hinv.
    destruct s as [g e]. unfold session_inv in Hinv. cbn [fst snd] in *.
    destruct Hinv as (_ & _ & _ & _ & _ & _ & _ & _ & _ & _ & Hli & _).
    destruct (list_item_in_range (levels g) (level_idx g) (Hli Hne))
      as (lv & Hit & Hn).
    exists lv. split; [exact Hit | exact (nth_error_In _ _ Hn)].
  - intros mouse_pos [g e] [g' e'] Hr Hst H. cbn [fst snd] in *.
    destruct (reachable_inv sin _ Hr) as [Hwf _].
    unfold Game_update in H. rewrite Hst in H.
    apply update_playing_spec in H; [| exact Hwf | exact Hst].
    destruct H as (lv & Hl & _ & _ & _ & Hli & _ & _ & Hlv & _).
    exists lv. eexists. split; [exact Hl|].
    unfold hud_level. rewrite Hli, Hlv.
    pose proof (Game__level_nth _ _ _ Hl) as Hn.
    destruct (list_item_in_range (levels g)
                (level_index (score g) (levels g))) as (a & Hit & Hn').
    { apply level_index_range. exact (Game__level_nonempty _ _ _ Hl). }
    rewrite Hit. congruence.
Qed.

(** X16. A PLAYING frame that goes on leaves no obstacle, enemy or coin
    in its collection that is off screen: every object whose right edge
    moved more than 10 pixels left of the screen was removed in that
    frame. *)
Theorem frames_remove_what_left (mouse_pos : Z * Z) (g : Game) (e : Env)
    (g' : Game) (e' : Env) :
  wf (g, e) -> state g = PLAYING ->
  Game_update sin mouse_pos (g, e) = Ok (g', e') ->
  state g' = PLAYING ->
  (forall w, In w (walls g') -> WallPair_off_screen w = false) /\
  (forall en, In en (enemies g') -> Enemy_off_screen en = false) /\
  (forall c, In c (coins g') -> Coin_off_screen c = false) /\
  (forall w, In w (walls g') -> (float (-10) <= w_x w + float WALL_WIDTH)%Q) /\
  (forall en, In en (enemies g') ->
              (float (-10) <= e_x en + float ENEMY_W)%Q) /\
  (forall c, In c (coins g') -> (float (-10) <= c_x c + float COIN_W)%Q).
Proof.
  intros Hwf Hst H Hpl.
  unfold Game_update in H. rewrite Hst in H.
  apply update_playing_spec in H; [| exact Hwf | exact Hst].
  destruct H as (lv & _ & _ & _ & _ & _ & _ & _ & _ & _ & _ & _ & _ & Hcases).
  destruct Hcases
    as [(Ho & _) | (_ & _ & _ & _ & _ & _ & _ & Hw & He & cs & _ & _ & Hc
                    & _)]; [congruence|].
  assert (Hcoin : forall c, In c (coins g') -> Coin_off_screen c = false).
  { intros c Hin. rewrite Hc in Hin.
    exact (proj2 (coins_kept_no_overlap sin _ _ _ Hin)). }
  split; [exact Hw|]. split; [exact He|]. split; [exact Hcoin|].
  split; [|split].
  - intros w Hin. apply Qltb_ge. exact (Hw w Hin).
  - intros en Hin. apply Qltb_ge. exact (He en Hin).
  - intros c Hin. apply Qltb_ge. exact (Hcoin c Hin).
Qed.

End RunTheorems.

(** The started session is one a run goes through. *)
Lemma playing_example_reachable :
  reachable sin0 (playing_example, env_const 0 Missing).
Proof.
  apply (reach_step sin0
           (Game_init levels3 (env_const 0 Missing), env_const 0 Missing)).
  - apply reach_init.
  - apply (step_event sin0 (MOUSEBUTTONDOWN 1 (400, 410))). reflexivity.
Qed.

Lemma levels_start_game (g : Game) :
  levels (Game__start_game g) = levels g.
Proof. reflexivity. Qed.

(** The session right after the start. *)
Lemma run_invariants_witness :
  p_alive (player (fst (playing_example, env_const 0 Missing)))
  = negb (State_eqb (state (fst (playing_example, env_const 0 Missing)))
            GAME_OVER) /\
  0 <= score (fst (playing_example, env_const 0 Missing)) /\
  p_x (player (fst (playing_example, env_const 0 Missing))) = PLAYER_X.
Proof.
  destruct (run_invariants sin0 _ playing_example_reachable)
    as (Hal & Hsc & _ & _ & Hx & _).
  split; [exact Hal|]. split; [exact Hsc | exact Hx].
Defined.

(** Right after the start the best score in memory is the stored one. *)
Lemma best_score_in_sync_witness :
  load_highscore (snd (playing_example, env_const 0 Missing))
  = high_score (fst (playing_example, env_const 0 Missing)).
Proof.
  exact (proj1 (best_score_in_sync sin0 _ playing_example_reachable)).
Defined.

(** The HUD level right after the start. *)
Lemma hud_level_lookup_witness :
  exists lv,
    hud_level (fst (playing_example, env_const 0 Missing)) = Ok lv /\
    In lv (levels (fst (playing_example, env_const 0 Missing))).
Proof.
  apply (proj1 (hud_level_lookup sin0) _ playing_example_reachable).
  cbn [fst]. unfold playing_example. rewrite levels_start_game.
  discriminate.
Defined.

(** The first frame after the start. *)
Lemma frames_remove_what_left_witness :
  exists g' e',
    Game_update sin0 (0, 0) (playing_example, env_const 0 Missing)
    = Ok (g', e') /\
    state g' = PLAYING /\
    forall w, In w (walls g') -> WallPair_off_screen w = false.
Proof.
  destruct (Game_update sin0 (0, 0) (playing_example, env_const 0 Missing))
    as [[g' e']|x] eqn:E; [|vm_compute in E; discriminate].
  assert (Hst : state g' = PLAYING).
  { pose proof E as E2. vm_compute in E2. injection E2 as <- _.
    vm_compute. reflexivity. }
  exists g', e'. split; [reflexivity|]. split; [exact Hst|].
  exact (proj1 (frames_remove_what_left sin0 (0, 0) playing_example
                  (env_const 0 Missing) g' e'
                  (wf_start_game _ _) eq_refl E Hst)).
Defined.
